(** * NightDriverStrip, [include/jsonserializer.h]

    A shallow embedding of the JSON (de)serialization helpers of
    NightDriverStrip: the [IJSONSerializable] interface, the ArduinoJson
    converters for [CRGB] and [CRGBPalette16], and the [JSONWriter]
    deferred-write coordinator with its background invoker task.

    Layout: the definitions of each component come first, in the order of
    the header; the theorems follow, grouped per component. *)

From stdpp Require Import base list numbers.
From Stdlib Require Import ZArith.
From Stdlib Require String.

(** ** ArduinoJson values

    The part of ArduinoJson's [JsonVariant] the converters below touch: null,
    booleans, integers, arrays and objects.  String and floating-point leaves
    (whose conversion to an integer goes through ArduinoJson's number parser
    and float truncation) are outside this development. *)
Module Json.

#[warnings="-register-all"]
Inductive JsonVariant : Type :=
  | JNull
  | JBool (b : bool)
  | JInteger (z : Z)
  | JArray (elements : list JsonVariant)
  | JObject (members : list (String.string * JsonVariant)).

Definition UINT32_MAX : Z := 4294967295.

(** [(uint32_t) x] for an [int] or wider integer [x]. *)
Definition to_uint32 (x : Z) : Z := x mod 2 ^ 32.

(** [src.is<uint32_t>()]: an integer that fits. *)
Definition is_uint32 (src : JsonVariant) : bool :=
  match src with
  | JInteger z => (0 <=? z)%Z && (z <=? UINT32_MAX)%Z
  | _ => false
  end.

(** [src.as<uint32_t>()]: the integer when it fits, [0] otherwise; a boolean
    converts to [0] or [1]. *)
Definition as_uint32 (src : JsonVariant) : Z :=
  match src with
  | JInteger z => if (0 <=? z)%Z && (z <=? UINT32_MAX)%Z then z else 0%Z
  | JBool true => 1%Z
  | _ => 0%Z
  end.

(** [src.is<JsonArrayConst>()]. *)
Definition is_array (src : JsonVariant) : bool :=
  match src with
  | JArray _ => true
  | _ => false
  end.

(** [src.as<JsonArrayConst>()]: the elements of an array, and the null array
    (which iterates over nothing and has size [0]) for anything else. *)
Definition as_array (src : JsonVariant) : list JsonVariant :=
  match src with
  | JArray elements => elements
  | _ => []
  end.

End Json.

Import Json.

(** ** [Converter<CRGB>] *)
Module ConverterCRGB.

(** FastLED's [CRGB]: three [uint8_t] channels. *)
Record CRGB : Type := mkCRGB { r : Z; g : Z; b : Z }.

(** The channels are bytes. *)
Definition channels_ok (color : CRGB) : Prop :=
  (0 <= r color <= 255 ∧ 0 <= g color <= 255 ∧ 0 <= b color <= 255)%Z.

(** Modelled from the spec: FastLED's constructor [CRGB(uint32_t colorcode)]
    is not part of this header; "conversion back extracts the three channels
    from that integer", red from bits 16..23, green from bits 8..15 and blue
    from bits 0..7. *)
Definition CRGB_of_colorcode (colorcode : Z) : CRGB :=
  {| r := Z.land (Z.shiftr colorcode 16) 255;
     g := Z.land (Z.shiftr colorcode 8) 255;
     b := Z.land colorcode 255 |}.

(** [(uint32_t)((color.r << 16) | (color.g << 8) | color.b)]: the channels
    are promoted to [int], shifted and or-ed there, and the result is cast. *)
Definition packed (color : CRGB) : Z :=
  to_uint32 (Z.lor (Z.lor (Z.shiftl (r color) 16) (Z.shiftl (g color) 8)) (b color)).

(** [toJson]: [dst.set] of an integer stores it and reports success; the
    pair is the returned flag and the value [dst] then holds. *)
Definition toJson (color : CRGB) : bool * JsonVariant :=
  (true, JInteger (packed color)).

Definition fromJson (src : JsonVariant) : CRGB :=
  CRGB_of_colorcode (as_uint32 src).

Definition checkJson (src : JsonVariant) : bool :=
  is_uint32 src.

(** The order on colors the packing respects: red first, then green, then
    blue. *)
Definition CRGB_lt (c1 c2 : CRGB) : Prop :=
  (r c1 < r c2 ∨ (r c1 = r c2 ∧ (g c1 < g c2 ∨ (g c1 = g c2 ∧ b c1 < b c2))))%Z.

End ConverterCRGB.

Import ConverterCRGB.

(** ** [Converter<CRGBPalette16>] *)
Module ConverterCRGBPalette16.

(** FastLED's [CRGBPalette16]: [CRGB entries[16]]. *)
Record CRGBPalette16 : Type := mkPalette { entries : list CRGB }.

Definition palette_ok (palette : CRGBPalette16) : Prop :=
  length (entries palette) = 16 ∧ Forall channels_ok (entries palette).

(** [toJson]: every entry is appended, in index order, to an array built in
    a local document, through [Converter<CRGB>::toJson]; the document is
    created with 384 bytes, enough for its 16 array slots, and [dst.set]
    copies it.  The pair is the returned flag and the value [dst] holds. *)
Definition toJson (palette : CRGBPalette16) : bool * JsonVariant :=
  let colors :=
    foldl (λ colors color, colors ++ [snd (ConverterCRGB.toJson color)])
          [] (entries palette) in
  (true, JArray colors).

(** What a run of [fromJson] over its stack buffer [CRGB colors[16]] comes
    to: the palette built from the buffer, or a store to [colors[index]]
    with [index] outside the buffer. *)
Inductive converted : Type :=
  | Palette (palette : CRGBPalette16)
  | StoreOutOfBounds (index : nat).

(** The loop [for (value : componentsArray) colors[colorIndex++] = value.as<CRGB>()]
    from [colorIndex] on. *)
Fixpoint store_colors (values : list JsonVariant) (colorIndex : nat)
    (colors : list CRGB) : converted :=
  match values with
  | [] => Palette {| entries := colors |}
  | value :: values =>
      if decide (colorIndex < 16)
      then store_colors values (S colorIndex)
             (<[colorIndex := ConverterCRGB.fromJson value]> colors)
      else StoreOutOfBounds colorIndex
  end.

(** [fromJson].  [CRGB colors[16]] is not initialised ([CRGB]'s default
    constructor leaves the channels alone), so what the buffer holds on entry
    is the argument [stack]: 16 colors the caller has no control over. *)
Definition fromJson (stack : list CRGB) (src : JsonVariant) : converted :=
  store_colors (as_array src) 0 stack.

Definition checkJson (src : JsonVariant) : bool :=
  is_array src && (length (as_array src) =? 16).

(** A palette fading from (0, 7, 200) to (15, 7, 200), and a buffer that
    held (9, 9, 9) everywhere. *)
Definition fade : CRGBPalette16 :=
  mkPalette ((λ n, mkCRGB (Z.of_nat n) 7 200) <$> seq 0 16).

Definition stale : list CRGB := replicate 16 (mkCRGB 9 9 9).

End ConverterCRGBPalette16.

(** ** [IJSONSerializable] *)
Module Serializable.

(** A [JsonObject]: the members of an object node. *)
Definition JsonObject : Type := list (String.string * JsonVariant).

(** The two virtual member functions, for an implementing class whose state
    has type [T].  Serializing may change the object and the document;
    deserializing reads the document and may change the object. *)
Record IJSONSerializable (T : Type) : Type := mkSerializable {
  SerializeToJSON : T → JsonObject → bool * T * JsonObject;
  DeserializeFromJSON : T → JsonObject → bool * T
}.
Arguments mkSerializable {T} _ _.
Arguments SerializeToJSON {T} _ _ _.
Arguments DeserializeFromJSON {T} _ _ _.

(** The body [IJSONSerializable] itself gives [DeserializeFromJSON]:
    [{ return false; }]. *)
Definition IJSONSerializable_DeserializeFromJSON {T : Type}
    (self : T) (jsonObject : JsonObject) : bool * T :=
  (false, self).

(** A class that implements the pure virtual [SerializeToJSON] and does not
    override [DeserializeFromJSON]: its table keeps the base's body. *)
Definition without_override {T : Type}
    (serialize : T → JsonObject → bool * T * JsonObject) : IJSONSerializable T :=
  mkSerializable serialize IJSONSerializable_DeserializeFromJSON.

End Serializable.

(** ** [JSONWriter] *)
Module Writer.

(** How a call of a [std::function<void()>] ends: it returns, or an
    exception leaves it. *)
Inductive completion : Type := Returns | Throws.

(** Where the invoker task stands in [WriterInvokerEntryPoint]: at
    [xSemaphoreTake]; in the [for] over [writers], about to test the flag of
    entry [k]; inside [entry.writer()] of entry [k], before [entry.flag = false];
    or gone, once an exception has left the task function.  The place in
    the [for] is kept as an index into [writers]. *)
Inductive task_pc : Type :=
  | AtTake
  | AtEntry (k : nat)
  | InWriter (k : nat)
  | Gone.

Section WithWorld.

(** Everything a registered writer can read and change (files, the objects
    it serializes). *)
Context {World : Type}.

(** A [std::function<void()>]. *)
Definition procedure : Type := World → completion * World.

Record WriterEntry : Type := mkEntry {
  flag : bool;
  writer : procedure
}.

(** [WriterEntry(std::function<void()> writer)]: the flag takes its default
    member initializer. *)
Definition WriterEntry_of (writer : procedure) : WriterEntry :=
  {| flag := false; writer := writer |}.

(** [WriterEntry(WriterEntry&& entry) : WriterEntry(entry.writer)]. *)
Definition WriterEntry_move (entry : WriterEntry) : WriterEntry :=
  WriterEntry_of (writer entry).

(** The coordinator.  [writers_capacity] is the capacity of the vector;
    [writerSemaphore] is the binary semaphore, [true] when given;
    [writerTask] is the invoker task.  [invoked] and [wakeups] are history:
    the indices of the entries whose writer the task has called, oldest
    first, and the number of times [xSemaphoreTake] has returned. *)
Record JSONWriter : Type := mkWriter {
  writers : list WriterEntry;
  writers_capacity : nat;
  writerSemaphore : bool;
  writerTask : task_pc;
  world : World;
  invoked : list nat;
  wakeups : nat
}.

Definition with_writers (ws : list WriterEntry) (cap : nat) (s : JSONWriter) : JSONWriter :=
  mkWriter ws cap (writerSemaphore s) (writerTask s) (world s) (invoked s) (wakeups s).

Definition with_task (pc : task_pc) (s : JSONWriter) : JSONWriter :=
  mkWriter (writers s) (writers_capacity s) (writerSemaphore s) pc (world s)
           (invoked s) (wakeups s).

Definition with_world (w : World) (s : JSONWriter) : JSONWriter :=
  mkWriter (writers s) (writers_capacity s) (writerSemaphore s) (writerTask s) w
           (invoked s) (wakeups s).

(** Modelled from the spec: FreeRTOS is not part of this header; the wake
    signal is "a binary, non-queuing signal": giving sets it, whether or not
    it was set. *)
Definition xSemaphoreGive (s : JSONWriter) : JSONWriter :=
  mkWriter (writers s) (writers_capacity s) true (writerTask s) (world s)
           (invoked s) (wakeups s).

(** Modelled from the spec: [xSemaphoreTake(writerSemaphore, portMAX_DELAY)]
    blocks ([None]) until the signal is raised, and consumes it. *)
Definition xSemaphoreTake (s : JSONWriter) : option JSONWriter :=
  if writerSemaphore s
  then Some (mkWriter (writers s) (writers_capacity s) false (writerTask s) (world s)
                      (invoked s) (S (wakeups s)))
  else None.

(** The constructor: the semaphore is created and taken with no wait, so
    that it is not set, and the task is created; it starts at the top of its
    loop. *)
Definition JSONWriter_new (w : World) : JSONWriter :=
  mkWriter [] 0 false AtTake w [] 0.

(** The capacity a full [std::vector] of [size] elements grows to
    (libstdc++: [size + max(size, 1)]). *)
Definition grown (size : nat) : nat := size + Nat.max size 1.

(** [writers.emplace_back(writer)].  With room left, the new entry is built
    in place.  A full vector allocates new storage, builds the new entry
    there and move-constructs every old entry into it: [WriterEntry] has no
    copy constructor, so the move constructor is the one used. *)
Definition emplace_back (writer : procedure) (s : JSONWriter) : JSONWriter :=
  if decide (length (writers s) = writers_capacity s)
  then with_writers ((WriterEntry_move <$> writers s) ++ [WriterEntry_of writer])
                    (grown (length (writers s))) s
  else with_writers (writers s ++ [WriterEntry_of writer]) (writers_capacity s) s.

(** [RegisterWriter]: the returned index and the coordinator afterwards.
    Indices are [size_t]; the vector holds at least the new entry when
    [writers.size() - 1] is computed, so the subtraction does not wrap. *)
Definition RegisterWriter (writer : procedure) (s : JSONWriter) : nat * JSONWriter :=
  let s' := emplace_back writer s in
  (length (writers s') - 1, s').

(** [writers[index].flag = value]. *)
Definition store_flag (index : nat) (value : bool) (s : JSONWriter) : JSONWriter :=
  with_writers (alter (λ entry, {| flag := value; writer := writer entry |}) index (writers s))
               (writers_capacity s) s.

(** [FlagWriter]; the test is [index >= writers.size()]. *)
Definition FlagWriter (index : nat) (s : JSONWriter) : JSONWriter :=
  if decide (length (writers s) ≤ index)
  then s
  else xSemaphoreGive (store_flag index true s).

(** One step of the task running [WriterInvokerEntryPoint]; [None] when it
    cannot move (blocked in [xSemaphoreTake], or gone).  An exception that
    leaves [entry.writer()] meets no handler in the loop or in the task
    function: the task does not go on. *)
Definition WriterInvokerEntryPoint (s : JSONWriter) : option JSONWriter :=
  match writerTask s with
  | AtTake => with_task (AtEntry 0) <$> xSemaphoreTake s
  | AtEntry k =>
      match writers s !! k with
      | None => Some (with_task AtTake s)
      | Some entry =>
          if flag entry
          then Some (mkWriter (writers s) (writers_capacity s) (writerSemaphore s)
                              (InWriter k) (world s) (invoked s ++ [k]) (wakeups s))
          else Some (with_task (AtEntry (S k)) s)
      end
  | InWriter k =>
      match writers s !! k with
      | None => None
      | Some entry =>
          match writer entry (world s) with
          | (Returns, w) => Some (with_task (AtEntry (S k)) (store_flag k false (with_world w s)))
          | (Throws, w) => Some (with_task Gone (with_world w s))
          end
      end
  | Gone => None
  end.

(** The task is scheduled once: it moves if it can. *)
Definition invoker_step (s : JSONWriter) : JSONWriter :=
  default s (WriterInvokerEntryPoint s).

Definition invoker_steps (n : nat) (s : JSONWriter) : JSONWriter :=
  Nat.iter n invoker_step s.

(** What happens to a coordinator: a caller registers a writer, a caller
    flags an index, or the invoker task is scheduled for a step.  A call is
    taken as a whole between two steps of the task; the task itself moves
    one test, one writer call at a time, so that calls fall before, inside
    and after a writer's run. *)
Inductive call : Type :=
  | Register (writer : procedure)
  | Flag (index : nat)
  | Invoker.

Definition perform (c : call) (s : JSONWriter) : JSONWriter :=
  match c with
  | Register writer => snd (RegisterWriter writer s)
  | Flag index => FlagWriter index s
  | Invoker => invoker_step s
  end.

Definition run (calls : list call) (s : JSONWriter) : JSONWriter :=
  foldl (λ s c, perform c s) s calls.

(** The indices the [Register] calls of a run return, in order. *)
Fixpoint handles (calls : list call) (s : JSONWriter) : list nat :=
  match calls with
  | [] => []
  | Register writer :: calls =>
      fst (RegisterWriter writer s) :: handles calls (perform (Register writer) s)
  | c :: calls => handles calls (perform c s)
  end.

(** The procedures the [Register] calls of a run pass, in order. *)
Fixpoint registered (calls : list call) : list procedure :=
  match calls with
  | [] => []
  | Register writer :: calls => writer :: registered calls
  | _ :: calls => registered calls
  end.

(** The pending flag of entry [i], [false] where there is no entry. *)
Definition pending (s : JSONWriter) (i : nat) : bool :=
  match writers s !! i with
  | Some entry => flag entry
  | None => false
  end.

(** Every registered writer returns, whatever it finds. *)
Definition all_return (s : JSONWriter) : Prop :=
  Forall (λ p : procedure, ∀ w, fst (p w) = Returns) (writer <$> writers s).


(** The [for] over [writers] of one wake-up, from entry [k] on and in
    world [w], when no call falls in between: every entry whose flag is set
    has its writer called and its flag cleared, in turn; a writer that throws
    ends the loop with its flag, and the entries after it, as they were.
    The result is the entries, the world, the indices called and how the
    loop ended. *)
Fixpoint for_entries (entries : list WriterEntry) (k : nat) (w : World)
    : list WriterEntry * World * list nat * completion :=
  match entries with
  | [] => ([], w, [], Returns)
  | entry :: rest =>
      if flag entry
      then match writer entry w with
           | (Returns, w') =>
               let '(rest', w'', called, cmp) := for_entries rest (S k) w' in
               ({| flag := false; writer := writer entry |} :: rest', w'',
                k :: called, cmp)
           | (Throws, w') => (entry :: rest, w', [k], Throws)
           end
      else
        let '(rest', w'', called, cmp) := for_entries rest (S k) w in
        (entry :: rest', w'', called, cmp)
  end.

(** One turn of the [for(;;)]: the semaphore is taken and the [for] is run;
    the task is back at [xSemaphoreTake], or gone if a writer threw. *)
Definition wake_up (s : JSONWriter) : JSONWriter :=
  let '(entries, w, called, cmp) := for_entries (writers s) 0 (world s) in
  mkWriter entries (writers_capacity s) false
           (match cmp with Returns => AtTake | Throws => Gone end)
           w (invoked s ++ called) (S (wakeups s)).

(** The world after the writers of the pending entries have run on it, one
    after the other in the order of the entries. *)
Definition run_pending (entries : list WriterEntry) (w : World) : World :=
  foldl (λ w entry, if flag entry then snd (writer entry w) else w) w entries.

(** No request is behind the task's back: with the signal not raised, a
    task at [xSemaphoreTake] has no flag set to find, and a task in its
    [for] has none set among the entries it has passed.  The place in the
    [for] is within the registry. *)
Definition nothing_missed (s : JSONWriter) : Prop :=
  match writerTask s with
  | AtTake => writerSemaphore s = false → ∀ i, pending s i = false
  | AtEntry k =>
      k ≤ length (writers s) ∧
      (writerSemaphore s = false → ∀ i, i < k → pending s i = false)
  | InWriter k =>
      k < length (writers s) ∧
      (writerSemaphore s = false → ∀ i, i < k → pending s i = false)
  | Gone => True
  end.

(** The indices, counted from [k], of the entries whose flag is set. *)
Fixpoint pending_indices (entries : list WriterEntry) (k : nat) : list nat :=
  match entries with
  | [] => []
  | entry :: rest =>
      if flag entry then k :: pending_indices rest (S k) else pending_indices rest (S k)
  end.

(** Every pending entry has a writer that returns when it is called: on the
    world the pending writers before it have left. *)
Definition pending_return (entries : list WriterEntry) (w : World) : Prop :=
  ∀ i entry, entries !! i = Some entry → flag entry = true →
    fst (writer entry (run_pending (take i entries) w)) = Returns.

(** The world the task leaves when, the writers returning, it goes on from
    where it stands and comes to rest: the pending writers from its place
    on have run, then those before its place (which it finds on its next
    wake-up). *)
Definition served_world (s : JSONWriter) : World :=
  match writerTask s with
  | AtTake => run_pending (writers s) (world s)
  | AtEntry k =>
      run_pending (take k (writers s)) (run_pending (drop k (writers s)) (world s))
  | InWriter k =>
      match writers s !! k with
      | Some entry =>
          run_pending (take k (writers s))
            (run_pending (drop (S k) (writers s)) (snd (writer entry (world s))))
      | None => world s
      end
  | Gone => world s
  end.



(** The runs in which this model is the code.  [RegisterWriter] is called
    only while the task is at [xSemaphoreTake]: the [for] walks the vector
    through iterators taken when it starts, which a registration inside it
    would leave short of the new entry or, on reallocation, dangling.  And
    nothing is called once an exception has left the task function: that
    ends the program. *)
Fixpoint orderly (calls : list call) (s : JSONWriter) : Prop :=
  match calls with
  | [] => True
  | c :: calls =>
      writerTask s ≠ Gone ∧
      match c with
      | Register _ => writerTask s = AtTake
      | _ => True
      end ∧
      orderly calls (perform c s)
  end.

(** The indices the [Flag] calls of a run pass, in order. *)
Fixpoint flagged (calls : list call) : list nat :=
  match calls with
  | [] => []
  | Flag index :: calls => index :: flagged calls
  | _ :: calls => flagged calls
  end.

End WithWorld.

Arguments WriterEntry : clear implicits.
Arguments JSONWriter : clear implicits.
Arguments procedure : clear implicits.
Arguments call : clear implicits.

(** Sample writers over a world that is the list of what has been written:
    [saves tag] writes [tag] and returns, [fails tag] writes [tag] and throws. *)
Definition saves (tag : nat) : procedure (list nat) :=
  λ w, (Returns, w ++ [tag]).

Definition fails (tag : nat) : procedure (list nat) :=
  λ w, (Throws, w ++ [tag]).

(** Three registrations, the second of which throws, all flagged. *)
Definition three_flagged : JSONWriter (list nat) :=
  run [Register (saves 10); Register (fails 11); Register (saves 12);
       Flag 0; Flag 1; Flag 2] (JSONWriter_new []).

(** Two registrations with writers that return. *)
Definition two_registered : JSONWriter (list nat) :=
  run [Register (saves 10); Register (saves 11)] (JSONWriter_new []).

(** Four flag calls in a row: three on the first handle, one on the second. *)
Definition flag_burst : list (call (list nat)) :=
  [Flag 0; Flag 1; Flag 0; Flag 0].

Definition two_flagged : JSONWriter (list nat) :=
  run flag_burst two_registered.

(** One registration in a vector of capacity one, flagged. *)
Definition one_flagged : JSONWriter (list nat) :=
  run [Register (saves 10); Flag 0] (JSONWriter_new []).

(** One registration, flagged; the invoker has woken up and is inside its
    writer. *)
Definition one_running : JSONWriter (list nat) :=
  run [Register (saves 10); Flag 0; Invoker; Invoker] (JSONWriter_new []).

(** [one_running] flagged again inside the writer, two steps later: the
    writer has returned, the flag is clear, the task is back at
    [xSemaphoreTake] and the signal is still raised. *)
Definition woken_for_nothing : JSONWriter (list nat) :=
  invoker_steps 2 (FlagWriter 0 one_running).


(** Two registrations, the second of which would throw; only the first is
    flagged. *)
Definition quiet_thrower : JSONWriter (list nat) :=
  run [Register (saves 10); Register (fails 11); Flag 0] (JSONWriter_new []).

End Writer.

(** * Theorems *)

(** ** The color converter *)
Module ConverterCRGBFacts.
Import ConverterCRGB.
Local Open Scope Z_scope.

(** A value below [2 ^ k] has no bit in common with a value shifted left by
    [k], so or-ing them adds them. *)
Lemma lor_shiftl_low (hi lo k : Z) :
  0 <= k → 0 <= lo < 2 ^ k → Z.lor (Z.shiftl hi k) lo = hi * 2 ^ k + lo.
Proof.
  intros Hk Hlo.
  assert (Hland : Z.land (Z.shiftl hi k) lo = 0).
  { apply Z.bits_inj'. intros n Hn.
    rewrite Z.land_spec, Z.bits_0.
    destruct (Z.lt_ge_cases n k) as [Hlt | Hge].
    - rewrite Z.shiftl_spec_low by lia. reflexivity.
    - assert (Hbit : Z.testbit lo n = false).
      { apply Z.testbit_false; [lia |].
        rewrite Z.div_small; [reflexivity |].
        split; [lia |]. apply Z.lt_le_trans with (2 ^ k); [lia |].
        apply Z.pow_le_mono_r; lia. }
      rewrite Hbit. apply andb_false_r. }
  pose proof (Z.add_lor_land (Z.shiftl hi k) lo) as Hadd.
  rewrite Hland, Z.shiftl_mul_pow2 in Hadd by lia.
  rewrite Z.shiftl_mul_pow2 by lia. lia.
Qed.

(** The or of the shifted channels is their weighted sum. *)
Lemma lor_channels (cr cg cb : Z) :
  0 <= cr <= 255 → 0 <= cg <= 255 → 0 <= cb <= 255 →
  Z.lor (Z.lor (Z.shiftl cr 16) (Z.shiftl cg 8)) cb = cr * 65536 + cg * 256 + cb.
Proof.
  intros Hr Hg Hb.
  replace (Z.shiftl cr 16) with (Z.shiftl (Z.shiftl cr 8) 8)
    by (rewrite Z.shiftl_shiftl by lia; reflexivity).
  rewrite <- Z.shiftl_lor.
  rewrite (lor_shiftl_low cr cg 8) by lia.
  rewrite (lor_shiftl_low _ cb 8) by lia.
  change (2 ^ 8) with 256. lia.
Qed.

(** The packed value as a sum of weighted channels. *)
Lemma packed_weighted (c : CRGB) :
  channels_ok c → packed c = r c * 65536 + g c * 256 + b c.
Proof.
  intros (Hr & Hg & Hb). unfold packed, to_uint32.
  rewrite lor_channels by assumption.
  change (2 ^ 32) with 4294967296.
  apply Z.mod_small. lia.
Qed.

(** The channels of a color code, by division. *)
Lemma CRGB_of_colorcode_div (n : Z) :
  CRGB_of_colorcode n =
    mkCRGB ((n / 65536) mod 256) ((n / 256) mod 256) (n mod 256).
Proof.
  unfold CRGB_of_colorcode.
  change 255 with (Z.ones 8).
  rewrite !Z.land_ones, !Z.shiftr_div_pow2 by lia.
  reflexivity.
Qed.

Lemma unpack_packed (c : CRGB) :
  channels_ok c → CRGB_of_colorcode (packed c) = c.
Proof.
  intros Hc. rewrite CRGB_of_colorcode_div, packed_weighted by assumption.
  destruct c as [cr cg cb]. destruct Hc as (Hr & Hg & Hb). simpl in *.
  f_equal; Z.div_mod_to_equations; lia.
Qed.

Lemma as_uint32_packed (c : CRGB) :
  channels_ok c → as_uint32 (JInteger (packed c)) = packed c ∧
                  is_uint32 (JInteger (packed c)) = true.
Proof.
  intros Hc. pose proof (packed_weighted c Hc) as Hp.
  destruct Hc as (Hr & Hg & Hb). unfold as_uint32, is_uint32, UINT32_MAX.
  assert (Hin : (0 <=? packed c) && (packed c <=? 4294967295) = true).
  { apply andb_true_iff. split; apply Z.leb_le; lia. }
  rewrite Hin. split; reflexivity.
Qed.

(** C7.  Color round trip: for channels in 0..255, [toJson] stores the
    24-bit integer (r<<16)|(g<<8)|b and [fromJson] of it gives the color
    back; every integer of 0..2^24-1 is the packed value of the color it
    decodes to; and packing carries the red-green-blue order of colors to
    the order of integers. *)
Theorem color_round_trip :
  (∀ c : CRGB, channels_ok c →
     toJson c = (true, JInteger (packed c)) ∧
     packed c = Z.lor (Z.lor (Z.shiftl (r c) 16) (Z.shiftl (g c) 8)) (b c) ∧
     0 <= packed c < 2 ^ 24 ∧
     checkJson (snd (toJson c)) = true ∧
     fromJson (snd (toJson c)) = c) ∧
  (∀ n : Z, 0 <= n < 2 ^ 24 →
     channels_ok (CRGB_of_colorcode n) ∧
     fromJson (JInteger n) = CRGB_of_colorcode n ∧
     packed (CRGB_of_colorcode n) = n) ∧
  (∀ c1 c2 : CRGB, channels_ok c1 → channels_ok c2 →
     (CRGB_lt c1 c2 ↔ packed c1 < packed c2)).
Proof.
  split; [| split].
  - intros c Hc. pose proof (packed_weighted c Hc) as Hp.
    pose proof (as_uint32_packed c Hc) as [Has His].
    split; [reflexivity |]. split.
    { rewrite Hp. destruct Hc as (Hr & Hg & Hb).
      symmetry. apply lor_channels; assumption. }
    split; [destruct Hc as (Hr & Hg & Hb); lia |].
    split; [exact His |].
    unfold fromJson, toJson. simpl snd. rewrite Has. apply unpack_packed, Hc.
  - intros n Hn. rewrite CRGB_of_colorcode_div.
    assert (Hok : channels_ok (mkCRGB ((n / 65536) mod 256) ((n / 256) mod 256) (n mod 256))).
    { unfold channels_ok. simpl.
      pose proof (Z.mod_pos_bound (n / 65536) 256).
      pose proof (Z.mod_pos_bound (n / 256) 256).
      pose proof (Z.mod_pos_bound n 256). lia. }
    split; [exact Hok |]. split.
    { unfold fromJson, as_uint32, UINT32_MAX.
      assert (Hin : (0 <=? n) && (n <=? 4294967295) = true).
      { apply andb_true_iff. split; apply Z.leb_le; lia. }
      rewrite Hin. apply CRGB_of_colorcode_div. }
    rewrite packed_weighted by exact Hok. simpl.
    assert (n / 65536 < 256) by (apply Z.div_lt_upper_bound; lia).
    assert (0 <= n / 65536) by (apply Z.div_pos; lia).
    rewrite (Z.mod_small (n / 65536)) by lia.
    pose proof (Z.div_mod n 256 ltac:(lia)) as H1.
    pose proof (Z.div_mod (n / 256) 256 ltac:(lia)) as H2.
    rewrite Z.div_div in H2 by lia. change (256 * 256) with 65536 in H2.
    lia.
  - intros c1 c2 H1 H2.
    rewrite (packed_weighted c1 H1), (packed_weighted c2 H2).
    unfold CRGB_lt. destruct H1 as (? & ? & ?), H2 as (? & ? & ?). lia.
Qed.

(** The theorem at the color (18, 52, 86), the code [0x123456] and the
    neighbours (0, 255, 255) and (1, 0, 0). *)
Lemma color_round_trip_witness :
  fromJson (snd (toJson (mkCRGB 18 52 86))) = mkCRGB 18 52 86 ∧
  packed (CRGB_of_colorcode 1193046) = 1193046 ∧
  packed (mkCRGB 0 255 255) < packed (mkCRGB 1 0 0).
Proof.
  destruct color_round_trip as (Hrt & Hsurj & Hord).
  split; [| split].
  - apply (Hrt (mkCRGB 18 52 86)). unfold channels_ok. simpl. lia.
  - apply (Hsurj 1193046). lia.
  - apply (Hord (mkCRGB 0 255 255) (mkCRGB 1 0 0)).
    + unfold channels_ok. simpl. lia.
    + unfold channels_ok. simpl. lia.
    + unfold CRGB_lt. simpl. lia.
Defined.

End ConverterCRGBFacts.

(** ** The palette converter *)
Module ConverterCRGBPalette16Facts.
Import ConverterCRGB ConverterCRGBPalette16.

(** Appending one converted color at a time builds the converted list. *)
Lemma add_each (f : CRGB → JsonVariant) (colors : list CRGB) (acc : list JsonVariant) :
  foldl (λ acc color, acc ++ [f color]) acc colors = acc ++ (f <$> colors).
Proof.
  revert acc. induction colors as [| color colors IH]; intros acc; simpl.
  - by rewrite app_nil_r.
  - rewrite IH, <- app_assoc. reflexivity.
Qed.

Lemma toJson_array (palette : CRGBPalette16) :
  toJson palette = (true, JArray ((λ c, JInteger (packed c)) <$> entries palette)).
Proof. unfold toJson. rewrite add_each. reflexivity. Qed.

(** Within the buffer, the loop overwrites the slots from [colorIndex] on
    with the converted values, in order, and touches no other slot. *)
Lemma store_colors_in_bounds (values : list JsonVariant) :
  ∀ (colorIndex : nat) (colors : list CRGB),
    colorIndex + length values ≤ 16 → length colors = 16 →
    store_colors values colorIndex colors =
      Palette (mkPalette (take colorIndex colors
                            ++ (ConverterCRGB.fromJson <$> values)
                            ++ drop (colorIndex + length values) colors)).
Proof.
  induction values as [| value values IH]; intros k colors Hk Hlen; simpl in *.
  - rewrite Nat.add_0_r, take_drop. reflexivity.
  - destruct (decide (k < 16)) as [_ | Hge]; [| lia].
    rewrite IH by (rewrite ?length_insert; lia).
    do 2 f_equal.
    rewrite (take_S_r _ k (ConverterCRGB.fromJson value))
      by (apply list_lookup_insert_eq; lia).
    rewrite take_insert_ge by lia.
    rewrite drop_insert_lt by lia.
    rewrite <- app_assoc.
    replace (S k + length values) with (k + S (length values)) by lia.
    reflexivity.
Qed.

(** One entry too many, and the loop stores to [colors[16]]. *)
Lemma store_colors_overrun (values : list JsonVariant) :
  ∀ (colorIndex : nat) (colors : list CRGB),
    colorIndex ≤ 16 → 16 < colorIndex + length values →
    store_colors values colorIndex colors = StoreOutOfBounds 16.
Proof.
  induction values as [| value values IH]; intros k colors Hk Hlen; simpl in *.
  - lia.
  - destruct (decide (k < 16)) as [Hlt | Hge].
    + apply IH; lia.
    + f_equal. lia.
Qed.

Lemma checkJson_iff (src : JsonVariant) :
  checkJson src = true ↔ ∃ elements, src = JArray elements ∧ length elements = 16.
Proof.
  unfold checkJson. split.
  - intros H. apply andb_true_iff in H as [Harr Hsize].
    destruct src; try discriminate Harr.
    eexists. split; [reflexivity |]. simpl in Hsize. by apply Nat.eqb_eq.
  - intros (elements & -> & Hlen). simpl. by apply Nat.eqb_eq.
Qed.

(** C8.  Gradient shape check and round trip: [checkJson] accepts exactly
    the arrays of 16 entries (so it rejects arrays of 15 or 17 entries and
    values that are not arrays), and a 16-entry palette serializes to a
    16-entry array, entry [i] the packed color [i], which [checkJson]
    accepts and [fromJson] turns back into the same palette. *)
Theorem gradient_shape_check_and_round_trip :
  (∀ src : JsonVariant,
     checkJson src = true ↔ ∃ elements, src = JArray elements ∧ length elements = 16) ∧
  (∀ elements : list JsonVariant,
     length elements = 15 ∨ length elements = 17 → checkJson (JArray elements) = false) ∧
  (∀ src : JsonVariant, is_array src = false → checkJson src = false) ∧
  (∀ (palette : CRGBPalette16) (stack : list CRGB),
     palette_ok palette → length stack = 16 →
     ∃ elements,
       toJson palette = (true, JArray elements) ∧
       length elements = 16 ∧
       (∀ i c, entries palette !! i = Some c → elements !! i = Some (JInteger (packed c))) ∧
       checkJson (JArray elements) = true ∧
       fromJson stack (JArray elements) = Palette palette).
Proof.
  split; [exact checkJson_iff |]. split; [| split].
  - intros elements Hlen. unfold checkJson. simpl.
    apply Nat.eqb_neq. lia.
  - intros src Harr. unfold checkJson. by rewrite Harr.
  - intros palette stack [Hlen Hok] Hstack.
    exists ((λ c, JInteger (packed c)) <$> entries palette).
    split; [apply toJson_array |].
    split; [by rewrite length_fmap |].
    split; [intros i c Hi; by rewrite list_lookup_fmap, Hi |].
    split; [apply checkJson_iff; eexists; split; [reflexivity | by rewrite length_fmap] |].
    unfold fromJson. simpl as_array.
    rewrite store_colors_in_bounds by (rewrite ?length_fmap; lia).
    rewrite length_fmap, Hlen. simpl take.
    rewrite drop_ge by lia. rewrite app_nil_r. simpl.
    destruct palette as [colors]. simpl in *. do 2 f_equal.
    rewrite <- list_fmap_compose.
    clear Hlen. induction Hok as [| c colors Hc Hcs IH]; simpl; [reflexivity |].
    f_equal; [| exact IH].
    unfold ConverterCRGB.fromJson.
    destruct (ConverterCRGBFacts.as_uint32_packed c Hc) as [-> _].
    by apply ConverterCRGBFacts.unpack_packed.
Qed.

Lemma fade_ok : palette_ok fade.
Proof.
  split; [reflexivity |].
  unfold fade. simpl. repeat constructor; simpl; lia.
Qed.

(** The theorem at the palette [fade], at an array of 15 nulls and at a
    boolean. *)
Lemma gradient_shape_check_and_round_trip_witness :
  checkJson (JArray (replicate 16 JNull)) = true ∧
  checkJson (JArray (replicate 15 JNull)) = false ∧
  checkJson (JBool true) = false ∧
  ∃ elements, toJson fade = (true, JArray elements) ∧
              fromJson stale (JArray elements) = Palette fade.
Proof.
  destruct gradient_shape_check_and_round_trip as (Hiff & Hreject & Hother & Hrt).
  split; [| split; [| split]].
  - apply Hiff. exists (replicate 16 JNull). split; reflexivity.
  - apply Hreject. left. reflexivity.
  - apply Hother. reflexivity.
  - destruct (Hrt fade stale fade_ok eq_refl) as (elements & Hto & _ & _ & _ & Hfrom).
    exists elements. split; assumption.
Defined.

(** C9, as stated, fails.  [fromJson] has no guard and no error to report:
    given 15 entries over a buffer that held (9, 9, 9), it returns a palette
    whose last entry is that stale color; given 17 entries it stores to
    [colors[16]], past the 16 slots of the buffer. *)
Lemma gradient_read_guard_counterexample :
  fromJson stale (JArray (replicate 15 (JInteger 0))) =
    Palette (mkPalette (replicate 15 (mkCRGB 0 0 0) ++ [mkCRGB 9 9 9])) ∧
  fromJson stale (JArray (replicate 17 (JInteger 0))) = StoreOutOfBounds 16.
Proof. split; reflexivity. Qed.

(** C9, amended.  The guard on the number of entries is [checkJson], not
    [fromJson]: [checkJson] rejects every value whose array size is not 16,
    and for a value it accepts [fromJson] converts the 16 entries in order
    into the 16 slots.  [fromJson] itself reports no error: for an array of
    at most 16 entries it converts each entry once, in order, into the slots
    from 0 on, and leaves the remaining slots as they were; for a value that
    is not an array it leaves all 16 as they were. *)
Theorem gradient_guard_is_checkJson :
  (∀ src : JsonVariant, length (as_array src) ≠ 16 → checkJson src = false) ∧
  (∀ (src : JsonVariant) (stack : list CRGB),
     checkJson src = true → length stack = 16 →
     ∃ elements, src = JArray elements ∧ length elements = 16 ∧
       fromJson stack src = Palette (mkPalette (ConverterCRGB.fromJson <$> elements))) ∧
  (∀ (elements : list JsonVariant) (stack : list CRGB),
     length elements ≤ 16 → length stack = 16 →
     fromJson stack (JArray elements) =
       Palette (mkPalette ((ConverterCRGB.fromJson <$> elements)
                             ++ drop (length elements) stack))) ∧
  (∀ (src : JsonVariant) (stack : list CRGB),
     is_array src = false → fromJson stack src = Palette (mkPalette stack)).
Proof.
  assert (Hfill : ∀ (elements : list JsonVariant) (stack : list CRGB),
             length elements ≤ 16 → length stack = 16 →
             fromJson stack (JArray elements) =
               Palette (mkPalette ((ConverterCRGB.fromJson <$> elements)
                                     ++ drop (length elements) stack))).
  { intros elements stack Hn Hstack. unfold fromJson. simpl as_array.
    rewrite store_colors_in_bounds by lia. reflexivity. }
  split; [| split; [| split]].
  - intros src Hsize. unfold checkJson.
    apply andb_false_iff. right. by apply Nat.eqb_neq.
  - intros src stack Hcheck Hstack.
    apply checkJson_iff in Hcheck as (elements & -> & Hlen).
    exists elements. split; [reflexivity |]. split; [exact Hlen |].
    rewrite Hfill by lia.
    rewrite drop_ge by lia. by rewrite app_nil_r.
  - exact Hfill.
  - intros src stack Harr. unfold fromJson.
    destruct src; try discriminate Harr; reflexivity.
Qed.

(** The amended theorem at an array of 18 entries (rejected), at the
    serialized [fade] (accepted and converted), at an array of 2 entries and
    at a boolean. *)
Lemma gradient_guard_is_checkJson_witness :
  checkJson (JArray (replicate 18 (JInteger 0))) = false ∧
  (∃ elements, snd (toJson fade) = JArray elements ∧ length elements = 16 ∧
     fromJson stale (snd (toJson fade)) =
       Palette (mkPalette (ConverterCRGB.fromJson <$> elements))) ∧
  fromJson stale (JArray [JInteger 255; JInteger 65280]) =
    Palette (mkPalette ([mkCRGB 0 0 255; mkCRGB 0 255 0] ++ replicate 14 (mkCRGB 9 9 9))) ∧
  fromJson stale (JBool true) = Palette (mkPalette stale).
Proof.
  destruct gradient_guard_is_checkJson as (Hreject & Haccept & Hfill & Hother).
  split; [| split; [| split]].
  - apply Hreject. simpl. lia.
  - apply Haccept; reflexivity.
  - apply (Hfill [JInteger 255; JInteger 65280] stale); simpl; lia.
  - apply Hother. reflexivity.
Defined.

End ConverterCRGBPalette16Facts.

(** ** The serializable interface *)
Module SerializableFacts.
Import Serializable.

(** C10.  A class that does not override [DeserializeFromJSON] answers
    every document with [false] and keeps its state as it was. *)
Theorem default_deserialize_not_supported :
  ∀ (T : Type) (serialize : T → JsonObject → bool * T * JsonObject)
    (self : T) (jsonObject : JsonObject),
    DeserializeFromJSON (without_override serialize) self jsonObject = (false, self).
Proof. intros T serialize self jsonObject. reflexivity. Qed.

End SerializableFacts.

(** ** The coordinator *)
Module WriterFacts.
Import Writer.

Section WithWorld.
Context {World : Type}.
Implicit Types (s : JSONWriter World) (p : procedure World) (e : WriterEntry World).

(** *** What each operation leaves alone *)

Lemma alter_flag_writer (value : bool) (i : nat) (ws : list (WriterEntry World)) :
  writer <$> alter (λ e, {| flag := value; writer := writer e |}) i ws = writer <$> ws.
Proof.
  revert i. induction ws as [| e ws IH]; intros [| i]; simpl; try reflexivity.
  f_equal. apply IH.
Qed.

Lemma store_flag_writer (i : nat) (value : bool) s :
  writer <$> writers (store_flag i value s) = writer <$> writers s.
Proof. apply alter_flag_writer. Qed.

Lemma store_flag_length (i : nat) (value : bool) s :
  length (writers (store_flag i value s)) = length (writers s).
Proof. apply length_alter. Qed.

Lemma pending_store_flag (i j : nat) (value : bool) s :
  pending (store_flag i value s) j =
    if decide (i = j ∧ j < length (writers s)) then value else pending s j.
Proof.
  unfold pending, store_flag. simpl.
  destruct (decide (i = j)) as [-> | Hne].
  - rewrite list_lookup_alter_eq.
    destruct (writers s !! j) as [e |] eqn:Hj; simpl.
    + apply lookup_lt_Some in Hj. rewrite decide_True by auto. reflexivity.
    + apply lookup_ge_None in Hj. rewrite decide_False by lia. reflexivity.
  - rewrite list_lookup_alter_ne by assumption.
    rewrite decide_False by tauto. reflexivity.
Qed.

Lemma pending_lt s (i : nat) : pending s i = true → i < length (writers s).
Proof.
  unfold pending. destruct (writers s !! i) eqn:Hi; [| discriminate].
  intros _. by apply lookup_lt_Some in Hi.
Qed.

Lemma FlagWriter_writer (i : nat) s :
  writer <$> writers (FlagWriter i s) = writer <$> writers s.
Proof.
  unfold FlagWriter. destruct (decide _); [reflexivity |].
  apply store_flag_writer.
Qed.

Lemma invoker_step_writer s :
  writer <$> writers (invoker_step s) = writer <$> writers s.
Proof.
  unfold invoker_step, WriterInvokerEntryPoint, xSemaphoreTake.
  destruct (writerTask s) as [| k | k |]; simpl; try reflexivity.
  - destruct (writerSemaphore s); reflexivity.
  - destruct (writers s !! k) as [e |]; [| reflexivity].
    destruct (flag e); reflexivity.
  - destruct (writers s !! k) as [e |]; [| reflexivity].
    destruct (writer e (world s)) as [[|] w]; simpl; [| reflexivity].
    apply alter_flag_writer.
Qed.

Lemma invoker_steps_writer (n : nat) s :
  writer <$> writers (invoker_steps n s) = writer <$> writers s.
Proof.
  induction n as [| n IH]; [reflexivity |].
  unfold invoker_steps in *. simpl. by rewrite invoker_step_writer.
Qed.

Lemma emplace_back_writer p s :
  writer <$> writers (emplace_back p s) = (writer <$> writers s) ++ [p].
Proof.
  unfold emplace_back. destruct (decide _); simpl; rewrite fmap_app; simpl.
  - f_equal. rewrite <- list_fmap_compose. reflexivity.
  - reflexivity.
Qed.

Lemma writers_length_fmap s :
  length (writers s) = length (writer <$> writers s).
Proof. by rewrite length_fmap. Qed.


(** *** Steps of the invoker *)

Lemma invoker_steps_add (a b : nat) s :
  invoker_steps (a + b) s = invoker_steps a (invoker_steps b s).
Proof. unfold invoker_steps. apply Nat.iter_add. Qed.

(** A task that cannot move stays where it is. *)
Lemma invoker_steps_stuck (n : nat) s :
  WriterInvokerEntryPoint s = None → invoker_steps n s = s.
Proof.
  intros Hstuck. induction n as [| n IH]; [reflexivity |].
  unfold invoker_steps in *. simpl. rewrite IH.
  unfold invoker_step. by rewrite Hstuck.
Qed.


Lemma filter_seq_snoc (f : nat → bool) (k d : nat) :
  List.filter f (seq k (S d)) = List.filter f (seq k d) ++ (if f (k + d) then [k + d] else []).
Proof.
  rewrite seq_S, List.filter_app. simpl. destruct (f (k + d)); reflexivity.
Qed.

(** The entries [k .. k+d-1], all with writers that return: the task tests
    each in turn, calls the writer of those that are pending and clears
    their flag, and stands at entry [k+d] after at most [2*d] steps. *)
Lemma scan_range (d : nat) :
  ∀ (k : nat) s,
    writerTask s = AtEntry k →
    k + d ≤ length (writers s) →
    (∀ i p, k ≤ i < k + d → (writer <$> writers s) !! i = Some p →
            ∀ w, fst (p w) = Returns) →
    ∃ c, c ≤ 2 * d ∧
      let s' := invoker_steps c s in
      writerTask s' = AtEntry (k + d) ∧
      writerSemaphore s' = writerSemaphore s ∧
      wakeups s' = wakeups s ∧
      invoked s' = invoked s ++ List.filter (pending s) (seq k d) ∧
      writer <$> writers s' = writer <$> writers s ∧
      (∀ j, pending s' j = if decide (k ≤ j < k + d) then false else pending s j).
Proof.
  induction d as [| d IH]; intros k s Htask Hlen Hret.
  - exists 0. split; [lia |]. simpl.
    rewrite Nat.add_0_r, app_nil_r. repeat split; try done.
    intros j. rewrite decide_False by lia. reflexivity.
  - destruct (IH k s Htask ltac:(lia)) as (c & Hc & Hs').
    { intros i p Hi. apply Hret. lia. }
    simpl in Hs'. set (s1 := invoker_steps c s) in *.
    destruct Hs' as (Htask1 & Hsem1 & Hwake1 & Hinv1 & Hwr1 & Hpend1).
    destruct (writers s1 !! (k + d)) as [e |] eqn:He.
    2:{ apply lookup_ge_None in He.
        rewrite writers_length_fmap, Hwr1, <- writers_length_fmap in He. lia. }
    assert (Hflag : pending s (k + d) = flag e).
    { rewrite <- (decide_False (P := k ≤ k + d < k + d) false (pending s (k + d)))
        by lia.
      rewrite <- Hpend1. unfold pending. by rewrite He. }
    assert (Hreturns : ∀ w, fst (writer e w) = Returns).
    { apply (Hret (k + d)); [lia |]. rewrite <- Hwr1, list_lookup_fmap, He. reflexivity. }
    destruct (flag e) eqn:Hfl.
    + (* pending: into the writer, and out of it *)
      exists (2 + c). split; [lia |]. cbv zeta.
      rewrite filter_seq_snoc, Hflag, app_assoc, <- Hinv1.
      rewrite (invoker_steps_add 2 c). fold s1.
      change (invoker_steps 2 s1) with (invoker_step (invoker_step s1)).
      set (s2 := invoker_step s1).
      assert (Hs2 : s2 = mkWriter (writers s1) (writers_capacity s1) (writerSemaphore s1)
                                  (InWriter (k + d)) (world s1)
                                  (invoked s1 ++ [k + d]) (wakeups s1)).
      { unfold s2, invoker_step, WriterInvokerEntryPoint.
        rewrite Htask1, He, Hfl. reflexivity. }
      assert (Hs3 : ∃ w, invoker_step s2 =
                with_task (AtEntry (S (k + d))) (store_flag (k + d) false (with_world w s2))).
      { unfold invoker_step at 1, WriterInvokerEntryPoint.
        rewrite Hs2. simpl. rewrite He.
        specialize (Hreturns (world s1)).
        destruct (writer e (world s1)) as [cmp w]. simpl in Hreturns. subst cmp.
        exists w. reflexivity. }
      destruct Hs3 as (w & ->). rewrite Hs2. simpl.
      rewrite alter_flag_writer.
      replace (k + S d) with (S (k + d)) by lia.
      repeat split; try done.
      intros j.
      pose proof (pending_store_flag (k + d) j false
                    (with_world w (mkWriter (writers s1) (writers_capacity s1)
                       (writerSemaphore s1) (InWriter (k + d)) (world s1)
                       (invoked s1 ++ [k + d]) (wakeups s1)))) as Hp.
      unfold pending, store_flag in Hp. simpl in Hp.
      unfold pending at 1. simpl. rewrite Hp. clear Hp.
      fold (pending s1 j). rewrite Hpend1.
      apply lookup_lt_Some in He.
      repeat case_decide; try reflexivity; lia.
    + (* not pending: on to the next entry *)
      exists (1 + c). split; [lia |]. cbv zeta.
      rewrite filter_seq_snoc, Hflag, app_nil_r.
      rewrite (invoker_steps_add 1 c). fold s1.
      change (invoker_steps 1 s1) with (invoker_step s1).
      assert (Hs2 : invoker_step s1 = with_task (AtEntry (S (k + d))) s1).
      { unfold invoker_step, WriterInvokerEntryPoint.
        rewrite Htask1, He, Hfl. reflexivity. }
      rewrite Hs2. simpl.
      replace (k + S d) with (S (k + d)) by lia.
      repeat split; try done.
      intros j. unfold pending at 1. simpl. fold (pending s1 j). rewrite Hpend1.
      destruct (decide (j = k + d)) as [-> | Hne].
      * rewrite decide_False by lia. rewrite decide_True by lia. exact Hflag.
      * repeat case_decide; try reflexivity; lia.
Qed.

(** One wake-up with writers that all return: the task takes the signal,
    calls every pending writer once, in index order, clears the flags, and
    is back at [xSemaphoreTake], where it cannot move. *)
Lemma wake_cycle s (n : nat) :
  writerTask s = AtTake → writerSemaphore s = true → all_return s →
  2 * length (writers s) + 2 ≤ n →
  let s' := invoker_steps n s in
  writerTask s' = AtTake ∧
  writerSemaphore s' = false ∧
  wakeups s' = S (wakeups s) ∧
  invoked s' = invoked s ++ List.filter (pending s) (seq 0 (length (writers s))) ∧
  (∀ j, pending s' j = false) ∧
  WriterInvokerEntryPoint s' = None ∧
  writer <$> writers s' = writer <$> writers s.
Proof.
  intros Htask Hsem Hret Hn.
  remember (invoker_step s) as s1 eqn:Hdef1.
  assert (Hs1 : s1 = with_task (AtEntry 0)
                       (mkWriter (writers s) (writers_capacity s) false (writerTask s)
                                 (world s) (invoked s) (S (wakeups s)))).
  { rewrite Hdef1. unfold invoker_step, WriterInvokerEntryPoint, xSemaphoreTake.
    rewrite Htask, Hsem. reflexivity. }
  destruct (scan_range (length (writers s)) 0 s1) as (c & Hc & Hs2).
  { rewrite Hs1. reflexivity. }
  { rewrite Hs1. simpl. lia. }
  { intros i p _ Hi. rewrite Hs1 in Hi. simpl in Hi.
    unfold all_return in Hret. rewrite Forall_lookup in Hret. by apply (Hret i). }
  cbv zeta in Hs2. remember (invoker_steps c s1) as s2 eqn:Hdef2.
  destruct Hs2 as (Htask2 & Hsem2 & Hwake2 & Hinv2 & Hwr2 & Hpend2).
  assert (Hlen2 : length (writers s2) = length (writers s)).
  { rewrite (writers_length_fmap s2), Hwr2, Hs1. simpl. by rewrite length_fmap. }
  remember (invoker_step s2) as s3 eqn:Hdef3.
  assert (Hs3 : s3 = with_task AtTake s2).
  { rewrite Hdef3. unfold invoker_step, WriterInvokerEntryPoint. rewrite Htask2. simpl.
    rewrite (proj2 (lookup_ge_None (writers s2) (length (writers s)))) by lia.
    reflexivity. }
  assert (Hsem3 : writerSemaphore s3 = false).
  { rewrite Hs3. simpl. rewrite Hsem2, Hs1. reflexivity. }
  assert (Hstuck : WriterInvokerEntryPoint s3 = None).
  { assert (Htask3 : writerTask s3 = AtTake) by (by rewrite Hs3).
    unfold WriterInvokerEntryPoint, xSemaphoreTake.
    rewrite Htask3, Hsem3. reflexivity. }
  assert (Hsteps : invoker_steps n s = s3).
  { replace n with ((n - (c + 2)) + (1 + (c + 1))) by lia.
    rewrite invoker_steps_add, (invoker_steps_add 1 (c + 1)), (invoker_steps_add c 1).
    change (invoker_steps 1 s) with (invoker_step s). rewrite <- Hdef1, <- Hdef2.
    change (invoker_steps 1 s2) with (invoker_step s2). rewrite <- Hdef3.
    by apply invoker_steps_stuck. }
  cbv zeta. rewrite Hsteps.
  split; [by rewrite Hs3 |]. split; [exact Hsem3 |].
  split; [rewrite Hs3; simpl; rewrite Hwake2, Hs1; reflexivity |].
  split.
  { rewrite Hs3. simpl. rewrite Hinv2, Hs1. reflexivity. }
  split.
  { intros j. rewrite Hs3. unfold pending at 1. simpl. fold (pending s2 j).
    rewrite Hpend2. case_decide as Hj; [reflexivity |].
    unfold pending. rewrite Hs1. simpl.
    rewrite (proj2 (lookup_ge_None (writers s) j)) by lia. reflexivity. }
  split; [exact Hstuck |].
  rewrite Hs3. simpl. rewrite Hwr2, Hs1. reflexivity.
Qed.

(** One wake-up in which the pending writer of entry [k] throws, those of
    the entries before it returning: the pending writers up to [k] are
    called, and the task is gone. *)
Lemma throw_ends_scan s (n k : nat) e :
  writerTask s = AtTake → writerSemaphore s = true →
  writers s !! k = Some e → flag e = true →
  (∀ w, fst (writer e w) = Throws) →
  (∀ i p, i < k → (writer <$> writers s) !! i = Some p → ∀ w, fst (p w) = Returns) →
  2 * k + 3 ≤ n →
  let s' := invoker_steps n s in
  writerTask s' = Gone ∧
  invoked s' = invoked s ++ List.filter (pending s) (seq 0 (S k)) ∧
  WriterInvokerEntryPoint s' = None.
Proof.
  intros Htask Hsem He Hflag Hthrows Hret Hn.
  remember (invoker_step s) as s1 eqn:Hdef1.
  assert (Hs1 : s1 = with_task (AtEntry 0)
                       (mkWriter (writers s) (writers_capacity s) false (writerTask s)
                                 (world s) (invoked s) (S (wakeups s)))).
  { rewrite Hdef1. unfold invoker_step, WriterInvokerEntryPoint, xSemaphoreTake.
    rewrite Htask, Hsem. reflexivity. }
  pose proof (lookup_lt_Some _ _ _ He) as Hk.
  destruct (scan_range k 0 s1) as (c & Hc & Hs2).
  { rewrite Hs1. reflexivity. }
  { rewrite Hs1. simpl. lia. }
  { intros i p Hi Hp. rewrite Hs1 in Hp. simpl in Hp. apply (Hret i); [lia | done]. }
  cbv zeta in Hs2. remember (invoker_steps c s1) as s2 eqn:Hdef2.
  destruct Hs2 as (Htask2 & Hsem2 & Hwake2 & Hinv2 & Hwr2 & Hpend2).
  assert (He2 : ∃ e2, writers s2 !! k = Some e2 ∧ flag e2 = true ∧ writer e2 = writer e).
  { pose proof (Hpend2 k) as Hpk. rewrite decide_False in Hpk by lia.
    assert (Hwk : (writer <$> writers s2) !! k = Some (writer e)).
    { rewrite Hwr2, Hs1. simpl. by rewrite list_lookup_fmap, He. }
    rewrite list_lookup_fmap in Hwk.
    unfold pending in Hpk. rewrite Hs1 in Hpk. simpl in Hpk. rewrite He in Hpk.
    destruct (writers s2 !! k) as [e2 |]; [| discriminate Hwk].
    exists e2. simpl in Hwk. split; [reflexivity |]. split; congruence. }
  destruct He2 as (e2 & He2 & Hflag2 & Hwriter2).
  remember (invoker_step s2) as s3 eqn:Hdef3.
  assert (Hs3 : s3 = mkWriter (writers s2) (writers_capacity s2) (writerSemaphore s2)
                              (InWriter k) (world s2) (invoked s2 ++ [k]) (wakeups s2)).
  { rewrite Hdef3. unfold invoker_step, WriterInvokerEntryPoint. rewrite Htask2. simpl.
    rewrite He2, Hflag2. reflexivity. }
  remember (invoker_step s3) as s4 eqn:Hdef4.
  assert (Hs4 : ∃ w, s4 = with_task Gone (with_world w s3)).
  { rewrite Hdef4. unfold invoker_step, WriterInvokerEntryPoint. rewrite Hs3. simpl.
    rewrite He2, Hwriter2. specialize (Hthrows (world s2)).
    destruct (writer e (world s2)) as [cmp w]. simpl in Hthrows. subst cmp.
    exists w. reflexivity. }
  destruct Hs4 as (w & Hs4).
  assert (Hstuck : WriterInvokerEntryPoint s4 = None).
  { rewrite Hs4. reflexivity. }
  assert (Hsteps : invoker_steps n s = s4).
  { replace n with ((n - (c + 3)) + (2 + (c + 1))) by lia.
    rewrite invoker_steps_add, (invoker_steps_add 2 (c + 1)), (invoker_steps_add c 1).
    change (invoker_steps 1 s) with (invoker_step s). rewrite <- Hdef1, <- Hdef2.
    change (invoker_steps 2 s2) with (invoker_step (invoker_step s2)).
    rewrite <- Hdef3, <- Hdef4.
    by apply invoker_steps_stuck. }
  cbv zeta. rewrite Hsteps.
  split; [by rewrite Hs4 |]. split; [| exact Hstuck].
  rewrite Hs4. cbn [invoked with_task with_world]. rewrite Hs3. cbn [invoked].
  rewrite Hinv2, Hs1. cbn [invoked with_task].
  rewrite filter_seq_snoc. change (0 + k) with k.
  replace (pending s k) with true by (unfold pending; by rewrite He, Hflag).
  rewrite <- app_assoc. reflexivity.
Qed.

(** *** Between two wake-ups *)

Lemma FlagWriter_valid (i : nat) s :
  i < length (writers s) → FlagWriter i s = xSemaphoreGive (store_flag i true s).
Proof. intros Hi. unfold FlagWriter. rewrite decide_False by lia. reflexivity. Qed.





(** C4.  Invalid handle safety: [FlagWriter] with an index at or past the
    number of registrations returns the coordinator as it was: flags,
    signal, task and history. *)
Theorem invalid_handle_no_op s (index : nat) :
  length (writers s) ≤ index → FlagWriter index s = s.
Proof. intros Hindex. unfold FlagWriter. by rewrite decide_True. Qed.

(** *** The registry *)

Lemma RegisterWriter_index p s :
  fst (RegisterWriter p s) = length (writers s) ∧
  length (writers (snd (RegisterWriter p s))) = S (length (writers s)).
Proof.
  unfold RegisterWriter. simpl.
  rewrite (writers_length_fmap (emplace_back p s)), emplace_back_writer.
  rewrite length_app, length_fmap. simpl. lia.
Qed.

Lemma perform_writer (c : call World) s :
  writer <$> writers (perform c s) = (writer <$> writers s) ++ registered [c].
Proof.
  destruct c as [p | i |]; simpl.
  - apply emplace_back_writer.
  - by rewrite FlagWriter_writer, app_nil_r.
  - by rewrite invoker_step_writer, app_nil_r.
Qed.

Lemma registered_cons (c : call World) (calls : list (call World)) :
  registered (c :: calls) = registered [c] ++ registered calls.
Proof. destruct c; reflexivity. Qed.

(** Whatever is called, the registry grows at its end only, by the writers
    registered, and the indices returned count up from its length. *)
Lemma run_registry (calls : list (call World)) :
  ∀ s, writer <$> writers (run calls s) = (writer <$> writers s) ++ registered calls ∧
       handles calls s = seq (length (writers s)) (length (registered calls)).
Proof.
  induction calls as [| c calls IH]; intros s.
  - simpl. by rewrite app_nil_r.
  - change (run (c :: calls) s) with (run calls (perform c s)).
    destruct (IH (perform c s)) as [Hwr Hh].
    rewrite Hwr, perform_writer, <- app_assoc, <- registered_cons.
    split; [reflexivity |].
    assert (Hlen : length (writers (perform c s)) =
                   length (writers s) + length (registered [c])).
    { by rewrite (writers_length_fmap (perform c s)), perform_writer,
        length_app, length_fmap. }
    destruct c as [p | i |]; cbn [handles registered length] in *.
    + rewrite Hh, Hlen. simpl.
      f_equal; [apply RegisterWriter_index |]. f_equal. lia.
    + rewrite Hh, Hlen. f_equal. simpl. lia.
    + rewrite Hh, Hlen. f_equal. simpl. lia.
Qed.

(** The store [entry.flag = false] that follows [entry.writer()] clears the
    flag whether or not [FlagWriter] set it again while the writer ran. *)
Lemma clear_discards_flag s (index : nat) e :
  writerTask s = InWriter index → writers s !! index = Some e →
  fst (writer e (world s)) = Returns →
  pending (FlagWriter index s) index = true ∧
  pending (invoker_step (FlagWriter index s)) index = false.
Proof.
  intros Htask He Hret.
  pose proof (lookup_lt_Some _ _ _ He) as Hindex.
  rewrite FlagWriter_valid by exact Hindex.
  assert (He' : writers (store_flag index true s) !! index
                = Some {| flag := true; writer := writer e |}).
  { unfold store_flag. simpl. by rewrite list_lookup_alter_eq, He. }
  remember (xSemaphoreGive (store_flag index true s)) as s' eqn:Hs'.
  assert (Hw : writers s' !! index = Some {| flag := true; writer := writer e |})
    by (rewrite Hs'; exact He').
  assert (Ht : writerTask s' = InWriter index) by (rewrite Hs'; exact Htask).
  assert (Hworld : world s' = world s) by (by rewrite Hs').
  split.
  - unfold pending. by rewrite Hw.
  - unfold invoker_step, WriterInvokerEntryPoint. rewrite Ht, Hw, Hworld. cbn [writer].
    destruct (writer e (world s)) as [cmp w]. simpl in Hret. subst cmp. cbn [default].
    change (pending (store_flag index false (with_world w s')) index = false).
    rewrite pending_store_flag. rewrite decide_True; [reflexivity |].
    split; [reflexivity |]. by apply lookup_lt_Some in Hw.
Qed.

End WithWorld.

(** *** Runs of the sample coordinators *)

(** The task of [three_flagged] is gone after five steps, having called the
    writers of entries 0 and 1. *)
Lemma three_flagged_steps (n : nat) :
  5 ≤ n →
  invoker_steps n three_flagged = invoker_steps 5 three_flagged.
Proof.
  intros Hn. replace n with ((n - 5) + 5) by lia.
  rewrite invoker_steps_add. by apply invoker_steps_stuck.
Qed.

(** C3, as stated, fails.  Of three pending registrations the second of
    which throws, the third is never executed: the first two writers are
    called, the task is gone, and it stays so. *)
Lemma failure_isolation_counterexample :
  pending three_flagged 2 = true ∧
  (∀ n, 2 ∉ invoked (invoker_steps n three_flagged)) ∧
  (∀ n, 5 ≤ n →
     invoked (invoker_steps n three_flagged) = [0; 1] ∧
     world (invoker_steps n three_flagged) = [10; 11] ∧
     writerTask (invoker_steps n three_flagged) = Gone).
Proof.
  split; [reflexivity |]. split.
  - intros n. destruct (le_lt_dec 5 n) as [Hn | Hn].
    + rewrite three_flagged_steps by exact Hn.
      intros Hin. apply list_elem_of_In in Hin. vm_compute in Hin.
      intuition discriminate.
    + do 5 (destruct n as [| n];
            [intros Hin; apply list_elem_of_In in Hin; vm_compute in Hin;
             intuition discriminate |]).
      lia.
  - intros n Hn. rewrite three_flagged_steps by exact Hn.
    repeat split; reflexivity.
Qed.



Lemma two_flagged_return : all_return two_flagged.
Proof. unfold all_return. simpl. repeat constructor. Qed.

(** The theorem at index 7 of a coordinator with three registrations. *)
Lemma invalid_handle_no_op_witness : FlagWriter 7 three_flagged = three_flagged.
Proof. apply invalid_handle_no_op. simpl. lia. Defined.

Lemma one_running_steps (n : nat) :
  5 ≤ n →
  invoker_steps n (FlagWriter 0 one_running) = invoker_steps 5 (FlagWriter 0 one_running).
Proof.
  intros Hn. replace n with ((n - 5) + 5) by lia.
  rewrite invoker_steps_add. by apply invoker_steps_stuck.
Qed.

(** C2 at its failing input.  [FlagWriter 0] is called while the invoker is
    inside the writer of entry 0.  The flag is set and the signal raised;
    the writer returns, the flag is cleared, the invoker wakes up a second
    time and finds nothing pending: the writer of entry 0 has been called
    once, and is never called again. *)
Theorem flag_during_run_is_lost :
  writerTask one_running = InWriter 0 ∧
  invoked one_running = [0] ∧
  pending (FlagWriter 0 one_running) 0 = true ∧
  writerSemaphore (FlagWriter 0 one_running) = true ∧
  (∀ n, pending (invoker_steps (S n) (FlagWriter 0 one_running)) 0 = false) ∧
  (∀ n, invoked (invoker_steps n (FlagWriter 0 one_running)) = [0]) ∧
  wakeups (invoker_steps 5 (FlagWriter 0 one_running)) = 2 ∧
  WriterInvokerEntryPoint (invoker_steps 5 (FlagWriter 0 one_running)) = None.
Proof.
  repeat split; try reflexivity.
  - intros n. destruct (le_lt_dec 5 (S n)) as [Hn | Hn].
    + by rewrite one_running_steps.
    + do 4 (destruct n as [| n]; [reflexivity |]). lia.
  - intros n. destruct (le_lt_dec 5 n) as [Hn | Hn].
    + by rewrite one_running_steps.
    + do 5 (destruct n as [| n]; [reflexivity |]). lia.
Qed.

End WriterFacts.

(** ** The color converter on values it did not write *)
Module ConverterCRGBEdges.
Import ConverterCRGB ConverterCRGBFacts.
Local Open Scope Z_scope.

Lemma CRGB_of_colorcode_ok (n : Z) : channels_ok (CRGB_of_colorcode n).
Proof.
  rewrite CRGB_of_colorcode_div. unfold channels_ok. simpl.
  pose proof (Z.mod_pos_bound (n / 65536) 256).
  pose proof (Z.mod_pos_bound (n / 256) 256).
  pose proof (Z.mod_pos_bound n 256). lia.
Qed.

Lemma packed_of_colorcode (n : Z) : packed (CRGB_of_colorcode n) = n mod 2 ^ 24.
Proof.
  rewrite packed_weighted by apply CRGB_of_colorcode_ok.
  rewrite CRGB_of_colorcode_div. simpl r. simpl g. simpl b.
  change (2 ^ 24) with 16777216.
  Z.div_mod_to_equations. lia.
Qed.

(** X1.  [checkJson] accepts exactly the integers of 0..2^32-1, more than
    [toJson] writes: decoding such an integer and encoding the color again
    keeps its low 24 bits, so the integer comes back exactly when it is
    below 2^24. *)
Theorem reencoding_keeps_low_24_bits (n : Z) :
  (checkJson (JInteger n) = true ↔ 0 <= n <= 4294967295) ∧
  (0 <= n <= 4294967295 →
     toJson (fromJson (JInteger n)) = (true, JInteger (n mod 2 ^ 24)) ∧
     (snd (toJson (fromJson (JInteger n))) = JInteger n ↔ n < 2 ^ 24)).
Proof.
  assert (Hiff : checkJson (JInteger n) = true ↔ 0 <= n <= 4294967295).
  { unfold checkJson, is_uint32, UINT32_MAX.
    rewrite andb_true_iff, !Z.leb_le. reflexivity. }
  split; [exact Hiff |].
  intros Hn. pose proof (proj2 Hiff Hn) as Hin.
  unfold checkJson, is_uint32, UINT32_MAX in Hin.
  assert (Hre : toJson (fromJson (JInteger n)) = (true, JInteger (n mod 2 ^ 24))).
  { unfold toJson, fromJson, as_uint32, UINT32_MAX. rewrite Hin.
    by rewrite packed_of_colorcode. }
  split; [exact Hre |].
  rewrite Hre. simpl snd. change (2 ^ 24) with 16777216. split.
  - intros Heq. injection Heq as Heq.
    pose proof (Z.mod_pos_bound n 16777216). lia.
  - intros Hlt. f_equal. apply Z.mod_small. lia.
Qed.

(** The theorem at [0xFF123456], accepted and decoded as [0x123456]. *)
Lemma reencoding_keeps_low_24_bits_witness :
  checkJson (JInteger 4279383126) = true ∧
  toJson (fromJson (JInteger 4279383126)) = (true, JInteger 1193046).
Proof.
  destruct (reencoding_keeps_low_24_bits 4279383126) as (Hiff & Hre).
  split.
  - apply Hiff. lia.
  - apply Hre. lia.
Defined.

End ConverterCRGBEdges.

(** ** The palette converter on values it did not write *)
Module ConverterCRGBPalette16Edges.
Import ConverterCRGB ConverterCRGBPalette16 ConverterCRGBPalette16Facts.

(** Encoding byte colors and decoding them gives them back. *)
Lemma decode_encoded_colors (colors : list CRGB) :
  Forall channels_ok colors →
  ConverterCRGB.fromJson <$> ((λ c, JInteger (packed c)) <$> colors) = colors.
Proof.
  induction 1 as [| c colors Hc Hcs IH]; simpl; [reflexivity |].
  f_equal; [| exact IH].
  unfold ConverterCRGB.fromJson.
  destruct (ConverterCRGBFacts.as_uint32_packed c Hc) as [-> _].
  by apply ConverterCRGBFacts.unpack_packed.
Qed.

(** X3.  [fromJson] on an array of more than 16 entries, whatever they are
    and whatever the buffer held: the first 16 are stored and the 17th store
    goes to [colors[16]], past the buffer. *)
Theorem fromJson_overruns_past_16 (elements : list JsonVariant) (stack : list CRGB) :
  16 < length elements →
  fromJson stack (JArray elements) = StoreOutOfBounds 16 ∧
  checkJson (JArray elements) = false.
Proof.
  intros Hlen. split.
  - unfold fromJson. simpl as_array. apply store_colors_overrun; lia.
  - unfold checkJson. simpl. apply Nat.eqb_neq. lia.
Qed.

(** The theorem at 20 booleans. *)
Lemma fromJson_overruns_past_16_witness :
  fromJson stale (JArray (replicate 20 (JBool false))) = StoreOutOfBounds 16.
Proof.
  apply (fromJson_overruns_past_16 (replicate 20 (JBool false)) stale).
  simpl. lia.
Defined.

(** X4.  What [checkJson] accepts, [fromJson] turns into a 16-entry palette
    with byte channels that does not depend on what the stack buffer held,
    whatever kinds of values the 16 entries are; and that palette is one
    [toJson] and [fromJson] give back. *)
Theorem accepted_gradient_decodes (src : JsonVariant) (stack1 stack2 : list CRGB) :
  checkJson src = true → length stack1 = 16 → length stack2 = 16 →
  ∃ palette,
    fromJson stack1 src = Palette palette ∧
    fromJson stack2 src = Palette palette ∧
    palette_ok palette ∧
    checkJson (snd (toJson palette)) = true ∧
    fromJson stack1 (snd (toJson palette)) = Palette palette.
Proof.
  intros Hcheck H1 H2.
  apply checkJson_iff in Hcheck as (elements & -> & Hlen).
  exists (mkPalette (ConverterCRGB.fromJson <$> elements)).
  assert (Hfrom : ∀ stack, length stack = 16 →
            fromJson stack (JArray elements)
            = Palette (mkPalette (ConverterCRGB.fromJson <$> elements))).
  { intros stack Hstack. unfold fromJson. simpl as_array.
    rewrite store_colors_in_bounds by lia.
    simpl take. rewrite drop_ge by lia. by rewrite app_nil_r. }
  assert (Hok : palette_ok (mkPalette (ConverterCRGB.fromJson <$> elements))).
  { split; [simpl; by rewrite length_fmap |]. simpl.
    apply Forall_fmap, Forall_true. intros value.
    apply ConverterCRGBEdges.CRGB_of_colorcode_ok. }
  split; [by apply Hfrom |]. split; [by apply Hfrom |]. split; [exact Hok |].
  rewrite toJson_array. simpl snd. simpl entries.
  split.
  - apply checkJson_iff. eexists. split; [reflexivity |].
    by rewrite !length_fmap.
  - unfold fromJson. simpl as_array.
    rewrite store_colors_in_bounds by (rewrite ?length_fmap; lia).
    simpl take. rewrite drop_ge by (rewrite !length_fmap; lia).
    rewrite app_nil_r. simpl. do 2 f_equal.
    apply decode_encoded_colors. apply Hok.
Qed.

(** The theorem at 16 entries of mixed kinds over two different buffers. *)
Lemma accepted_gradient_decodes_witness :
  ∃ palette,
    fromJson stale (JArray (replicate 15 JNull ++ [JInteger 255])) = Palette palette ∧
    fromJson (entries fade) (JArray (replicate 15 JNull ++ [JInteger 255])) = Palette palette ∧
    palette_ok palette.
Proof.
  destruct (accepted_gradient_decodes
              (JArray (replicate 15 JNull ++ [JInteger 255])) stale (entries fade)
              eq_refl eq_refl eq_refl)
    as (palette & Ha & Hb & Hok & _).
  exists palette. repeat split; try assumption; apply Hok.
Defined.

End ConverterCRGBPalette16Edges.

(** ** Whole wake-ups, and what the calls never do *)
Module WriterRuns.
Import Writer WriterFacts.

Section WithWorld.
Context {World : Type}.
Implicit Types (s : JSONWriter World) (p : procedure World) (e : WriterEntry World).

(** *** The steps of the task against the loop as written *)

Lemma alter_middle (f : WriterEntry World → WriterEntry World)
    (done rest : list (WriterEntry World)) e :
  alter f (length done) (done ++ e :: rest) = done ++ f e :: rest.
Proof.
  rewrite <- (Nat.add_0_r (length done)). by rewrite alter_app_r.
Qed.

(** From entry [length done] on, the steps of the task come to what
    [for_entries] computes, in at most two steps an entry and one more, and
    the task then cannot move. *)
Lemma for_steps (todo : list (WriterEntry World)) :
  ∀ (done : list (WriterEntry World)) s todo' w' called cmp,
    for_entries todo (length done) (world s) = (todo', w', called, cmp) →
    writers s = done ++ todo →
    writerTask s = AtEntry (length done) →
    writerSemaphore s = false →
    ∃ c, c ≤ 2 * length todo + 1 ∧
      invoker_steps c s =
        mkWriter (done ++ todo') (writers_capacity s) false
                 (match cmp with Returns => AtTake | Throws => Gone end)
                 w' (invoked s ++ called) (wakeups s) ∧
      WriterInvokerEntryPoint (invoker_steps c s) = None.
Proof.
  induction todo as [| entry rest IH];
    intros done s todo' w' called cmp Hfor Hws Htask Hsem.
  - injection Hfor as <- <- <- <-.
    exists 1. split; [simpl; lia |].
    change (invoker_steps 1 s) with (invoker_step s).
    assert (Hstep : invoker_step s = with_task AtTake s).
    { unfold invoker_step, WriterInvokerEntryPoint. rewrite Htask, Hws.
      rewrite (proj2 (lookup_ge_None _ _)) by (rewrite app_nil_r; lia).
      reflexivity. }
    rewrite Hstep. split.
    + unfold with_task. rewrite Hws, Hsem, !app_nil_r. reflexivity.
    + unfold WriterInvokerEntryPoint, xSemaphoreTake. simpl. by rewrite Hsem.
  - assert (Hk : writers s !! length done = Some entry).
    { rewrite Hws. by apply list_lookup_middle. }
    cbn [for_entries] in Hfor.
    destruct (flag entry) eqn:Hfl.
    + destruct (writer entry (world s)) as [c0 w0] eqn:Hw.
      remember (invoker_step s) as s1 eqn:Hdef1.
      assert (Hs1 : s1 = mkWriter (writers s) (writers_capacity s) (writerSemaphore s)
                                  (InWriter (length done)) (world s)
                                  (invoked s ++ [length done]) (wakeups s)).
      { rewrite Hdef1. unfold invoker_step, WriterInvokerEntryPoint.
        rewrite Htask, Hk, Hfl. reflexivity. }
      remember (invoker_step s1) as s2 eqn:Hdef2.
      destruct c0.
      * (* the writer returns *)
        destruct (for_entries rest (S (length done)) w0)
          as [[[rest' w''] called'] cmp'] eqn:Hrest.
        injection Hfor as <- <- <- <-.
        set (cleared := {| flag := false; writer := writer entry |}).
        assert (Hs2 : s2 = mkWriter ((done ++ [cleared]) ++ rest) (writers_capacity s)
                                    false (AtEntry (S (length done))) w0
                                    (invoked s ++ [length done]) (wakeups s)).
        { rewrite Hdef2, Hs1. unfold invoker_step, WriterInvokerEntryPoint.
          cbn [writerTask writers world]. rewrite Hk, Hw.
          cbn [default]. unfold with_task, store_flag, with_writers, with_world.
          cbn. rewrite Hws, alter_middle, Hsem, <- app_assoc. reflexivity. }
        assert (Hlen : length (done ++ [cleared]) = S (length done)).
        { rewrite length_app. simpl. lia. }
        destruct (IH (done ++ [cleared]) s2 rest' w'' called' cmp') as (c & Hc & Hrun & Hstuck).
        { rewrite Hlen, Hs2. exact Hrest. }
        { rewrite Hs2. reflexivity. }
        { rewrite Hlen, Hs2. reflexivity. }
        { rewrite Hs2. reflexivity. }
        exists (c + 2). split; [simpl; lia |].
        rewrite invoker_steps_add.
        change (invoker_steps 2 s) with (invoker_step (invoker_step s)).
        rewrite <- Hdef1, <- Hdef2.
        split; [| exact Hstuck].
        rewrite Hrun, Hs2. cbn. rewrite <- !app_assoc. reflexivity.
      * (* the writer throws *)
        injection Hfor as <- <- <- <-.
        assert (Hs2 : s2 = mkWriter (writers s) (writers_capacity s) false Gone w0
                                    (invoked s ++ [length done]) (wakeups s)).
        { rewrite Hdef2, Hs1. unfold invoker_step, WriterInvokerEntryPoint.
          cbn [writerTask writers world]. rewrite Hk, Hw.
          cbn. by rewrite Hsem. }
        exists 2. split; [simpl; lia |].
        change (invoker_steps 2 s) with (invoker_step (invoker_step s)).
        rewrite <- Hdef1, <- Hdef2, Hs2. split; [| reflexivity].
        by rewrite Hws.
    + (* not pending *)
      destruct (for_entries rest (S (length done)) (world s))
        as [[[rest' w''] called'] cmp'] eqn:Hrest.
      injection Hfor as <- <- <- <-.
      remember (invoker_step s) as s1 eqn:Hdef1.
      assert (Hs1 : s1 = mkWriter ((done ++ [entry]) ++ rest) (writers_capacity s)
                                  false (AtEntry (S (length done))) (world s)
                                  (invoked s) (wakeups s)).
      { rewrite Hdef1. unfold invoker_step, WriterInvokerEntryPoint.
        rewrite Htask, Hk, Hfl. cbn [default]. unfold with_task.
        rewrite Hws, Hsem, <- app_assoc. reflexivity. }
      assert (Hlen : length (done ++ [entry]) = S (length done)).
      { rewrite length_app. simpl. lia. }
      destruct (IH (done ++ [entry]) s1 rest' w'' called' cmp') as (c & Hc & Hrun & Hstuck).
      { rewrite Hlen, Hs1. exact Hrest. }
      { rewrite Hs1. reflexivity. }
      { rewrite Hlen, Hs1. reflexivity. }
      { rewrite Hs1. reflexivity. }
      exists (c + 1). split; [simpl; lia |].
      rewrite invoker_steps_add.
      change (invoker_steps 1 s) with (invoker_step s).
      rewrite <- Hdef1.
      split; [| exact Hstuck].
      rewrite Hrun, Hs1. cbn. rewrite <- !app_assoc. reflexivity.
Qed.

(** A whole wake-up of a task that stands at [xSemaphoreTake] with the signal
    raised. *)
Lemma wake_up_steps s (n : nat) :
  writerTask s = AtTake → writerSemaphore s = true →
  2 * length (writers s) + 2 ≤ n →
  invoker_steps n s = wake_up s ∧ WriterInvokerEntryPoint (wake_up s) = None.
Proof.
  intros Htask Hsem Hn. unfold wake_up.
  destruct (for_entries (writers s) 0 (world s)) as [[[entries w] called] cmp] eqn:Hfor.
  remember (invoker_step s) as s1 eqn:Hdef1.
  assert (Hs1 : s1 = mkWriter (writers s) (writers_capacity s) false (AtEntry 0)
                              (world s) (invoked s) (S (wakeups s))).
  { rewrite Hdef1. unfold invoker_step, WriterInvokerEntryPoint, xSemaphoreTake.
    rewrite Htask, Hsem. reflexivity. }
  destruct (for_steps (writers s) [] s1 entries w called cmp) as (c & Hc & Hrun & Hstuck).
  { rewrite Hs1. exact Hfor. }
  { rewrite Hs1. reflexivity. }
  { rewrite Hs1. reflexivity. }
  { rewrite Hs1. reflexivity. }
  assert (Hsteps : invoker_steps n s = invoker_steps c s1).
  { replace n with ((n - (c + 1)) + (c + 1)) by lia.
    rewrite invoker_steps_add, (invoker_steps_add c 1).
    change (invoker_steps 1 s) with (invoker_step s). rewrite <- Hdef1.
    by apply invoker_steps_stuck. }
  rewrite Hrun, Hs1 in Hsteps. cbn in Hsteps.
  rewrite Hrun, Hs1 in Hstuck. cbn in Hstuck.
  split; [exact Hsteps | exact Hstuck].
Qed.

Lemma for_entries_writer (entries : list (WriterEntry World)) :
  ∀ (k : nat) (w : World) entries' w' called cmp,
    for_entries entries k w = (entries', w', called, cmp) →
    writer <$> entries' = writer <$> entries ∧
    (∀ i, (∃ e', entries' !! i = Some e' ∧ flag e' = true) →
          (∃ e, entries !! i = Some e ∧ flag e = true)) ∧
    (∀ j, j ∈ called → ∃ e, entries !! (j - k) = Some e ∧ flag e = true ∧ k ≤ j).
Proof.
  induction entries as [| entry rest IH]; intros k w entries' w' called cmp Hfor.
  - injection Hfor as <- <- <- <-. repeat split; try done.
    intros j Hj. by apply elem_of_nil in Hj.
  - cbn [for_entries] in Hfor. destruct (flag entry) eqn:Hfl.
    + destruct (writer entry w) as [[|] w0].
      * destruct (for_entries rest (S k) w0) as [[[rest' w''] called'] cmp'] eqn:Hrest.
        injection Hfor as <- <- <- <-.
        destruct (IH _ _ _ _ _ _ Hrest) as (Hwr & Hfl' & Hcalled).
        split; [by rewrite !fmap_cons, Hwr |]. split.
        { intros [| i] (e' & He' & Hflag'); simpl in *.
          - injection He' as <-. discriminate Hflag'.
          - apply Hfl'. eauto. }
        intros j Hj. apply elem_of_cons in Hj as [-> | Hj].
        { exists entry. rewrite Nat.sub_diag. auto. }
        destruct (Hcalled j Hj) as (e & He & Hflag & Hle).
        exists e. replace (j - k) with (S (j - S k)) by lia. simpl. split; [done |].
        split; [done | lia].
      * injection Hfor as <- <- <- <-. repeat split; try done.
        intros j Hj. apply list_elem_of_singleton in Hj as ->.
        exists entry. rewrite Nat.sub_diag. auto.
    + destruct (for_entries rest (S k) w) as [[[rest' w''] called'] cmp'] eqn:Hrest.
      injection Hfor as <- <- <- <-.
      destruct (IH _ _ _ _ _ _ Hrest) as (Hwr & Hfl' & Hcalled).
      split; [by rewrite !fmap_cons, Hwr |]. split.
      { intros [| i] (e' & He' & Hflag'); simpl in *.
        - injection He' as <-. congruence.
        - apply Hfl'. eauto. }
      intros j Hj. destruct (Hcalled j Hj) as (e & He & Hflag & Hle).
      exists e. replace (j - k) with (S (j - S k)) by lia. simpl. split; [done |].
      split; [done | lia].
Qed.

(** With no flag set, the loop calls nothing and changes nothing. *)
Lemma for_entries_idle (entries : list (WriterEntry World)) :
  ∀ (k : nat) (w : World),
    Forall (λ e, flag e = false) entries →
    for_entries entries k w = (entries, w, [], Returns).
Proof.
  induction entries as [| entry rest IH]; intros k w Hidle; [reflexivity |].
  inversion Hidle as [| e' rest' Hfl Hrest]; subst e' rest'.
  cbn [for_entries]. rewrite Hfl, (IH _ _ Hrest). reflexivity.
Qed.

(** With writers that return, the loop clears every flag and runs the
    pending writers on the world in the order of the entries. *)
Lemma for_entries_return (entries : list (WriterEntry World)) :
  ∀ (k : nat) (w : World),
    Forall (λ p : procedure World, ∀ w, fst (p w) = Returns) (writer <$> entries) →
    ∃ called,
      for_entries entries k w =
        (WriterEntry_move <$> entries, run_pending entries w, called, Returns).
Proof.
  induction entries as [| entry rest IH]; intros k w Hret.
  - exists []. reflexivity.
  - inversion Hret as [| p' ps' Hp Hps]; subst p' ps'.
    cbn [for_entries]. unfold run_pending. cbn [foldl].
    destruct (flag entry) eqn:Hfl.
    + specialize (Hp w). destruct (writer entry w) as [cmp w0]. simpl in Hp. subst cmp.
      destruct (IH (S k) w0 Hps) as (called & ->).
      exists (k :: called). reflexivity.
    + destruct (IH (S k) w Hps) as (called & ->).
      exists called. do 3 f_equal.
      unfold WriterEntry_move, WriterEntry_of. destruct entry as [fl wr].
      simpl in *. by subst fl.
Qed.

(** X5.  A wake-up, step by step, is the loop as written: from
    [xSemaphoreTake] with the signal raised, and for writers of any
    behaviour, every run of at least [2 * size + 2] steps of the task ends
    in the state [wake_up] computes by one pass over the entries, where the
    task cannot move (blocked, or gone after a throw); the pass keeps the
    registered writers, sets no flag, and calls only writers whose flag was
    set. *)
Theorem wake_up_is_the_loop s (n : nat) :
  writerTask s = AtTake → writerSemaphore s = true →
  2 * length (writers s) + 2 ≤ n →
  invoker_steps n s = wake_up s ∧
  WriterInvokerEntryPoint (wake_up s) = None ∧
  writerSemaphore (wake_up s) = false ∧
  wakeups (wake_up s) = S (wakeups s) ∧
  writer <$> writers (wake_up s) = writer <$> writers s ∧
  (∀ i, pending (wake_up s) i = true → pending s i = true) ∧
  (∃ called, invoked (wake_up s) = invoked s ++ called ∧
             ∀ j, j ∈ called → pending s j = true).
Proof.
  intros Htask Hsem Hn.
  destruct (wake_up_steps s n Htask Hsem Hn) as [Hsteps Hstuck].
  split; [exact Hsteps |]. split; [exact Hstuck |].
  unfold wake_up in *.
  destruct (for_entries (writers s) 0 (world s)) as [[[entries w] called] cmp] eqn:Hfor.
  destruct (for_entries_writer _ _ _ _ _ _ _ Hfor) as (Hwr & Hfl & Hcalled).
  cbn. split; [reflexivity |]. split; [reflexivity |]. split; [exact Hwr |].
  split.
  - intros i Hi. unfold pending in *. cbn in Hi.
    destruct (entries !! i) as [e' |] eqn:He'; [| discriminate Hi].
    destruct (Hfl i) as (e & -> & He); eauto.
  - exists called. split; [reflexivity |].
    intros j Hj. destruct (Hcalled j Hj) as (e & He & Hflag & _).
    rewrite Nat.sub_0_r in He. unfold pending. by rewrite He.
Qed.

(** X6.  A wake-up with no flag set is harmless: the signal is consumed and
    counted, and writers, flags, world and call history are as before. *)
Theorem idle_wake_up_changes_nothing s (n : nat) :
  writerTask s = AtTake → writerSemaphore s = true →
  (∀ i, pending s i = false) →
  2 * length (writers s) + 2 ≤ n →
  invoker_steps n s =
    mkWriter (writers s) (writers_capacity s) false AtTake (world s) (invoked s)
             (S (wakeups s)).
Proof.
  intros Htask Hsem Hidle Hn.
  destruct (wake_up_steps s n Htask Hsem Hn) as [-> _].
  unfold wake_up. rewrite for_entries_idle.
  - by rewrite app_nil_r.
  - apply Forall_lookup. intros i e He.
    specialize (Hidle i). unfold pending in Hidle. by rewrite He in Hidle.
Qed.

(** X7.  Order within a wake-up: with writers that return, the world after
    the wake-up is the world before it with the writers of the pending
    entries run on it one after the other in index order, each on the world
    the one before left; every flag is then clear and the task is back at
    [xSemaphoreTake]. *)
Theorem wake_up_runs_writers_in_order s (n : nat) :
  writerTask s = AtTake → writerSemaphore s = true → all_return s →
  2 * length (writers s) + 2 ≤ n →
  world (invoker_steps n s) = run_pending (writers s) (world s) ∧
  writers (invoker_steps n s) = WriterEntry_move <$> writers s ∧
  writerTask (invoker_steps n s) = AtTake.
Proof.
  intros Htask Hsem Hret Hn.
  destruct (wake_up_steps s n Htask Hsem Hn) as [-> _].
  unfold wake_up.
  destruct (for_entries_return (writers s) 0 (world s) Hret) as (called & ->).
  repeat split; reflexivity.
Qed.

(** *** What the calls never do *)

Lemma FlagWriter_length (i : nat) s :
  length (writers (FlagWriter i s)) = length (writers s).
Proof.
  by rewrite (writers_length_fmap (FlagWriter i s)), FlagWriter_writer, length_fmap.
Qed.

Lemma FlagWriter_invalid (i : nat) s :
  length (writers s) ≤ i → FlagWriter i s = s.
Proof. intros Hi. unfold FlagWriter. by rewrite decide_True. Qed.

(** X8.  Flag calls absorb and commute: flagging an index twice leaves the
    coordinator as flagging it once does, and two flag calls leave it the
    same in either order, for valid and invalid indices alike. *)
Theorem flag_calls_absorb_and_commute s (i j : nat) :
  FlagWriter i (FlagWriter i s) = FlagWriter i s ∧
  FlagWriter i (FlagWriter j s) = FlagWriter j (FlagWriter i s).
Proof.
  assert (Hset : ∀ (a b : nat) s, a < length (writers s) → b < length (writers s) →
            FlagWriter a (FlagWriter b s) =
              mkWriter (alter (λ e, {| flag := true; writer := writer e |}) a
                          (alter (λ e, {| flag := true; writer := writer e |}) b
                             (writers s)))
                       (writers_capacity s) true (writerTask s) (world s)
                       (invoked s) (wakeups s)).
  { intros a b s' Ha Hb.
    rewrite (FlagWriter_valid a) by (by rewrite FlagWriter_length).
    rewrite (FlagWriter_valid b) by exact Hb. reflexivity. }
  split.
  - destruct (decide (length (writers s) ≤ i)) as [Hi | Hi].
    + rewrite (FlagWriter_invalid i s Hi). by apply FlagWriter_invalid.
    + rewrite Hset by lia. rewrite FlagWriter_valid by lia.
      unfold xSemaphoreGive, store_flag, with_writers. cbn.
      f_equal. rewrite list_alter_alter_eq. by apply list_alter_ext.
  - destruct (decide (length (writers s) ≤ i)) as [Hi | Hi];
      destruct (decide (length (writers s) ≤ j)) as [Hj | Hj].
    + rewrite (FlagWriter_invalid j s Hj), (FlagWriter_invalid i s Hi).
      by rewrite (FlagWriter_invalid j s Hj).
    + rewrite (FlagWriter_invalid i s Hi).
      apply FlagWriter_invalid. by rewrite FlagWriter_length.
    + rewrite (FlagWriter_invalid j s Hj).
      symmetry. apply FlagWriter_invalid. by rewrite FlagWriter_length.
    + rewrite !Hset by lia. f_equal.
      destruct (decide (i = j)) as [-> | Hne]; [reflexivity |].
      by apply list_alter_alter_ne.
Qed.

Lemma RegisterWriter_pending_new p s (i : nat) :
  length (writers s) ≤ i → pending (snd (RegisterWriter p s)) i = false.
Proof.
  intros Hi. unfold pending, RegisterWriter, emplace_back. simpl.
  destruct (decide _); simpl.
  - destruct (decide (i = length (writers s))) as [-> | Hne].
    + rewrite lookup_app_r by (by rewrite length_fmap).
      by rewrite length_fmap, Nat.sub_diag.
    + rewrite (proj2 (lookup_ge_None _ _)); [reflexivity |].
      rewrite length_app, length_fmap. simpl. lia.
  - destruct (decide (i = length (writers s))) as [-> | Hne].
    + rewrite lookup_app_r by lia. by rewrite Nat.sub_diag.
    + rewrite (proj2 (lookup_ge_None _ _)); [reflexivity |].
      rewrite length_app. simpl. lia.
Qed.

Lemma RegisterWriter_pending_old p s (i : nat) :
  pending (snd (RegisterWriter p s)) i = true → pending s i = true.
Proof.
  intros Hi. destruct (decide (length (writers s) ≤ i)) as [Hge | Hlt].
  { rewrite RegisterWriter_pending_new in Hi by exact Hge. discriminate Hi. }
  revert Hi. unfold pending, RegisterWriter, emplace_back. simpl.
  destruct (decide _); simpl.
  - rewrite lookup_app_l by (rewrite length_fmap; lia).
    rewrite list_lookup_fmap. destruct (writers s !! i); simpl; [discriminate | done].
  - rewrite lookup_app_l by lia. done.
Qed.

Lemma RegisterWriter_invoked p s :
  invoked (snd (RegisterWriter p s)) = invoked s.
Proof. unfold RegisterWriter, emplace_back. simpl. destruct (decide _); reflexivity. Qed.

(** X9.  Registering sets no flag and wakes nobody: the entry it adds is
    not pending, no entry is pending afterwards that was not before, and
    semaphore, task, world and call history are untouched; when the vector
    has room left, every flag is exactly as before. *)
Theorem register_sets_nothing p s :
  let s' := snd (RegisterWriter p s) in
  pending s' (fst (RegisterWriter p s)) = false ∧
  (∀ i, pending s' i = true → pending s i = true) ∧
  (length (writers s) < writers_capacity s → ∀ i, pending s' i = pending s i) ∧
  writerSemaphore s' = writerSemaphore s ∧ writerTask s' = writerTask s ∧
  world s' = world s ∧ invoked s' = invoked s ∧ wakeups s' = wakeups s.
Proof.
  intros s'.
  split; [apply RegisterWriter_pending_new; by rewrite (proj1 (RegisterWriter_index p s)) |].
  split; [apply RegisterWriter_pending_old |]. split.
  - intros Hroom i. destruct (decide (length (writers s) ≤ i)) as [Hge | Hlt].
    { unfold s'. rewrite RegisterWriter_pending_new by exact Hge. unfold pending.
      by rewrite (proj2 (lookup_ge_None _ _)). }
    unfold s', pending, RegisterWriter, emplace_back. simpl.
    rewrite decide_False by lia. simpl.
    by rewrite lookup_app_l by lia.
  - unfold s', RegisterWriter, emplace_back. simpl.
    destruct (decide _); repeat split; reflexivity.
Qed.

Lemma flagged_cons (c : call World) (calls : list (call World)) :
  flagged (c :: calls) = flagged [c] ++ flagged calls.
Proof. destruct c; reflexivity. Qed.

(** One call keeps this: what is pending, and what has been called, was
    flagged (or is in [P], for what was before the run), and what has been
    called is an index of the registry. *)
Lemma perform_flagged (c : call World) s (P : nat → Prop) :
  (∀ i, pending s i = true → P i) →
  (∀ i, i ∈ invoked s → P i ∧ i < length (writers s)) →
  (∀ i, pending (perform c s) i = true → P i ∨ i ∈ flagged [c]) ∧
  (∀ i, i ∈ invoked (perform c s) →
        (P i ∨ i ∈ flagged [c]) ∧ i < length (writers (perform c s))).
Proof.
  intros Hpend Hinv.
  assert (Hlen : length (writers s) ≤ length (writers (perform c s))).
  { rewrite (writers_length_fmap (perform c s)), perform_writer, length_app, length_fmap. lia. }
  destruct c as [p | j |]; cbn [perform flagged].
  - cbn [perform] in Hlen. split.
    + intros i Hi. left. by apply Hpend, (RegisterWriter_pending_old p s).
    + intros i Hi. rewrite RegisterWriter_invoked in Hi. destruct (Hinv i Hi) as [HP Hlt].
      split; [by left | lia].
  - destruct (decide (length (writers s) ≤ j)) as [Hj | Hj].
    + rewrite FlagWriter_invalid by exact Hj. split.
      * intros i Hi. left. by apply Hpend.
      * intros i Hi. destruct (Hinv i Hi). split; [by left | done].
    + rewrite FlagWriter_valid by lia. split.
      * intros i Hi.
        change (pending (store_flag j true s) i = true) in Hi.
        rewrite pending_store_flag in Hi. case_decide as Hij.
        -- right. destruct Hij as [-> _]. apply list_elem_of_here.
        -- left. by apply Hpend.
      * intros i Hi. change (i ∈ invoked s) in Hi. destruct (Hinv i Hi) as [HP Hlt].
        split; [by left |]. cbn. by rewrite length_alter.
  - unfold invoker_step, WriterInvokerEntryPoint, xSemaphoreTake in *.
    destruct (writerTask s) as [| k | k |]; cbn [default] in *.
    + destruct (writerSemaphore s); cbn in *;
        (split; [intros i Hi; left; by apply Hpend
                | intros i Hi; destruct (Hinv i Hi); split; [by left | done]]).
    + destruct (writers s !! k) as [e |] eqn:He; cbn in *.
      * destruct (flag e) eqn:Hfl; cbn in *.
        -- split; [intros i Hi; left; by apply Hpend |].
           intros i Hi. apply elem_of_app in Hi as [Hi | Hi].
           ++ destruct (Hinv i Hi). split; [by left | done].
           ++ apply list_elem_of_singleton in Hi as ->. split.
              ** left. apply Hpend. unfold pending. by rewrite He.
              ** by apply lookup_lt_Some in He.
        -- split; [intros i Hi; left; by apply Hpend
                  | intros i Hi; destruct (Hinv i Hi); split; [by left | done]].
      * split; [intros i Hi; left; by apply Hpend
               | intros i Hi; destruct (Hinv i Hi); split; [by left | done]].
    + destruct (writers s !! k) as [e |] eqn:He; cbn in *.
      * destruct (writer e (world s)) as [[|] w]; cbn in *.
        -- split.
           ++ intros i Hi.
              change (pending (store_flag k false (with_world w s)) i = true) in Hi.
              rewrite pending_store_flag in Hi. case_decide; [discriminate |].
              left. by apply Hpend.
           ++ intros i Hi. destruct (Hinv i Hi). split; [by left |].
              by rewrite length_alter.
        -- split; [intros i Hi; left; by apply Hpend
                  | intros i Hi; destruct (Hinv i Hi); split; [by left | done]].
      * split; [intros i Hi; left; by apply Hpend
               | intros i Hi; destruct (Hinv i Hi); split; [by left | done]].
    + split; [intros i Hi; left; by apply Hpend
             | intros i Hi; destruct (Hinv i Hi); split; [by left | done]].
Qed.

Lemma run_flagged (calls : list (call World)) :
  ∀ s (P : nat → Prop),
    (∀ i, pending s i = true → P i) →
    (∀ i, i ∈ invoked s → P i ∧ i < length (writers s)) →
    (∀ i, pending (run calls s) i = true → P i ∨ i ∈ flagged calls) ∧
    (∀ i, i ∈ invoked (run calls s) →
          (P i ∨ i ∈ flagged calls) ∧ i < length (writers (run calls s))).
Proof.
  induction calls as [| c calls IH]; intros s P Hpend Hinv.
  - split; [intros i Hi; left; by apply Hpend |].
    intros i Hi. destruct (Hinv i Hi). split; [by left | done].
  - change (run (c :: calls) s) with (run calls (perform c s)).
    destruct (perform_flagged c s P Hpend Hinv) as [Hpend' Hinv'].
    destruct (IH (perform c s) (λ i, P i ∨ i ∈ flagged [c]) Hpend' Hinv') as [Hp Hi].
    rewrite flagged_cons. split.
    + intros i Hpi. destruct (Hp i Hpi) as [[HP | Hc] | Hcs]; [by left | right .. ];
        apply elem_of_app; auto.
    + intros i Hii. destruct (Hi i Hii) as [[[HP | Hc] | Hcs] Hlt]; split; try done;
        [by left | right .. ]; apply elem_of_app; auto.
Qed.

(** X10.  No writer runs unflagged: from a new coordinator, in every
    orderly run of registrations, flag calls and steps of the task, every
    index in the call history was
    the argument of a [FlagWriter] call of the run and is an index of the
    registry; and every flag that is set was set by such a call. *)
Theorem only_flagged_writers_are_called (calls : list (call World)) (w0 : World) (i : nat) :
  orderly calls (JSONWriter_new w0) →
  (i ∈ invoked (run calls (JSONWriter_new w0)) →
     i ∈ flagged calls ∧ i < length (writers (run calls (JSONWriter_new w0)))) ∧
  (pending (run calls (JSONWriter_new w0)) i = true → i ∈ flagged calls).
Proof.
  intros _.
  destruct (run_flagged calls (JSONWriter_new w0) (λ _, False)) as [Hp Hi].
  { intros k Hk. discriminate Hk. }
  { intros k Hk. by apply elem_of_nil in Hk. }
  split.
  - intros Hin. destruct (Hi i Hin) as [[[] | Hfl] Hlt]. done.
  - intros Hpi. destruct (Hp i Hpi) as [[] | Hfl]. done.
Qed.

End WithWorld.

(** *** The sample coordinators again *)

(** The theorem at [three_flagged], whose second writer throws. *)
Lemma wake_up_is_the_loop_witness :
  invoker_steps 8 three_flagged = wake_up three_flagged ∧
  writerTask (wake_up three_flagged) = Gone ∧
  world (wake_up three_flagged) = [10; 11].
Proof.
  destruct (wake_up_is_the_loop three_flagged 8 eq_refl eq_refl ltac:(simpl; lia))
    as (Hsteps & _).
  split; [exact Hsteps |]. split; reflexivity.
Defined.

(** The theorem at [woken_for_nothing]. *)
Lemma idle_wake_up_changes_nothing_witness :
  world (invoker_steps 4 woken_for_nothing) = [10] ∧
  invoked (invoker_steps 4 woken_for_nothing) = [0] ∧
  wakeups (invoker_steps 4 woken_for_nothing) = 2.
Proof.
  assert (Hidle : ∀ i, pending woken_for_nothing i = false).
  { intros [| i]; reflexivity. }
  rewrite (idle_wake_up_changes_nothing woken_for_nothing 4 eq_refl eq_refl Hidle
             ltac:(simpl; lia)).
  repeat split; reflexivity.
Defined.

(** The theorem at [two_flagged]: the first writer, then the second. *)
Lemma wake_up_runs_writers_in_order_witness :
  world (invoker_steps 6 two_flagged) = [10; 11].
Proof.
  destruct (wake_up_runs_writers_in_order two_flagged 6 eq_refl eq_refl
              two_flagged_return ltac:(simpl; lia)) as (Hworld & _).
  rewrite Hworld. reflexivity.
Defined.

(** The theorem at [three_flagged], a vector of capacity 4 with 3 entries:
    registering a fourth keeps the three flags. *)
Lemma register_sets_nothing_witness :
  pending (snd (RegisterWriter (saves 13) three_flagged)) 2 = true ∧
  pending (snd (RegisterWriter (saves 13) three_flagged)) 3 = false.
Proof.
  destruct (register_sets_nothing (saves 13) three_flagged) as (Hnew & _ & Hroom & _).
  cbv zeta in Hnew, Hroom. split.
  - rewrite Hroom by (vm_compute; lia). reflexivity.
  - exact Hnew.
Defined.

(** The theorem at a run that flags index 0 and lets the task call it. *)
Lemma only_flagged_writers_are_called_witness :
  0 ∈ flagged [Register (saves 10); Flag 0; Invoker; (Invoker : call (list nat))].
Proof.
  destruct (only_flagged_writers_are_called
              [Register (saves 10); Flag 0; Invoker; Invoker] ([] : list nat) 0)
    as [Hcalled _].
  - simpl. repeat split; try reflexivity; discriminate.
  - apply Hcalled. apply list_elem_of_here.
Defined.

End WriterRuns.

(** ** Requests are not missed *)
Module WriterService.
Import Writer WriterFacts WriterRuns.

Section WithWorld.
Context {World : Type}.
Implicit Types (s : JSONWriter World) (p : procedure World) (e : WriterEntry World).

Lemma RegisterWriter_frame p s :
  writerSemaphore (snd (RegisterWriter p s)) = writerSemaphore s ∧
  writerTask (snd (RegisterWriter p s)) = writerTask s ∧
  length (writers s) < length (writers (snd (RegisterWriter p s))).
Proof.
  destruct (RegisterWriter_index p s) as [_ Hlen]. rewrite Hlen.
  unfold RegisterWriter, emplace_back. simpl.
  destruct (decide _); repeat split; try reflexivity; lia.
Qed.

Lemma perform_nothing_missed (c : call World) s :
  nothing_missed s → nothing_missed (perform c s).
Proof.
  intros Hinv. destruct c as [p | j |]; cbn [perform].
  - destruct (RegisterWriter_frame p s) as (Hsem & Htask & Hlen).
    unfold nothing_missed in *. rewrite Htask, Hsem.
    destruct (writerTask s) as [| k | k |]; [| | | done].
    + intros Hs i. specialize (Hinv Hs i).
      destruct (pending (snd (RegisterWriter p s)) i) eqn:Hp; [| reflexivity].
      apply RegisterWriter_pending_old in Hp. congruence.
    + destruct Hinv as [Hk Hinv]. split; [lia |].
      intros Hs i Hi. specialize (Hinv Hs i Hi).
      destruct (pending (snd (RegisterWriter p s)) i) eqn:Hp; [| reflexivity].
      apply RegisterWriter_pending_old in Hp. congruence.
    + destruct Hinv as [Hk Hinv]. split; [lia |].
      intros Hs i Hi. specialize (Hinv Hs i Hi).
      destruct (pending (snd (RegisterWriter p s)) i) eqn:Hp; [| reflexivity].
      apply RegisterWriter_pending_old in Hp. congruence.
  - destruct (decide (length (writers s) ≤ j)) as [Hj | Hj].
    + by rewrite FlagWriter_invalid.
    + rewrite FlagWriter_valid by lia.
      unfold nothing_missed in *. cbn [writerTask xSemaphoreGive writerSemaphore].
      change (writerTask (store_flag j true s)) with (writerTask s).
      change (length (writers (xSemaphoreGive (store_flag j true s))))
        with (length (writers (store_flag j true s))).
      rewrite store_flag_length.
      destruct (writerTask s) as [| k | k |]; [| | | done].
      * intros Hs. discriminate Hs.
      * split; [apply Hinv |]. intros Hs. discriminate Hs.
      * split; [apply Hinv |]. intros Hs. discriminate Hs.
  - unfold invoker_step, WriterInvokerEntryPoint, xSemaphoreTake.
    unfold nothing_missed in Hinv.
    destruct (writerTask s) as [| k | k |] eqn:Htask; cbn [default].
    + destruct (writerSemaphore s) eqn:Hsem; cbn.
      * unfold nothing_missed. cbn. split; [lia |]. intros _ i Hi. lia.
      * unfold nothing_missed. by rewrite Htask, Hsem.
    + destruct Hinv as [Hk Hinv].
      destruct (writers s !! k) as [e |] eqn:He; cbn.
      * pose proof (lookup_lt_Some _ _ _ He) as Hlt.
        destruct (flag e) eqn:Hfl; cbn.
        -- unfold nothing_missed. cbn. split; [lia |]. exact Hinv.
        -- unfold nothing_missed. cbn. split; [lia |].
           intros Hs i Hi. destruct (decide (i = k)) as [-> | Hne].
           ++ unfold pending. cbn. by rewrite He.
           ++ apply (Hinv Hs). lia.
      * apply lookup_ge_None in He.
        unfold nothing_missed. cbn. intros Hs i.
        destruct (decide (i < k)) as [Hi | Hi]; [by apply (Hinv Hs) |].
        unfold pending. cbn. by rewrite (proj2 (lookup_ge_None _ _)) by lia.
    + destruct Hinv as [Hk Hinv].
      destruct (writers s !! k) as [e |] eqn:He; cbn.
      * destruct (writer e (world s)) as [[|] w]; cbn.
        -- unfold nothing_missed. cbn. rewrite length_alter. split; [lia |].
           intros Hs i Hi.
           change (pending (store_flag k false (with_world w s)) i = false).
           rewrite pending_store_flag. case_decide; [reflexivity |].
           change (pending s i = false). apply (Hinv Hs).
           change (length (writers (with_world w s))) with (length (writers s)) in *. lia.
        -- done.
      * unfold nothing_missed. rewrite Htask. split; [lia | exact Hinv].
    + unfold nothing_missed. by rewrite Htask.
Qed.

Lemma run_nothing_missed (calls : list (call World)) :
  ∀ s, nothing_missed s → nothing_missed (run calls s).
Proof.
  induction calls as [| c calls IH]; intros s Hinv; [exact Hinv |].
  change (run (c :: calls) s) with (run calls (perform c s)).
  by apply IH, perform_nothing_missed.
Qed.

(** X11.  The task never sleeps on a request: from a new coordinator and
    after any orderly run (each [FlagWriter] call taken whole), whenever the
    task
    is at [xSemaphoreTake] with the signal not raised no flag is set, and
    whenever the signal is not raised no flag is set on an entry the task
    has already passed in its [for]. *)
Theorem never_asleep_on_a_request (calls : list (call World)) (w0 : World) :
  orderly calls (JSONWriter_new w0) →
  let s := run calls (JSONWriter_new w0) in
  (writerTask s = AtTake → writerSemaphore s = false → ∀ i, pending s i = false) ∧
  (∀ k, writerTask s = AtEntry k ∨ writerTask s = InWriter k →
        writerSemaphore s = false → ∀ i, i < k → pending s i = false).
Proof.
  intros _ s.
  assert (Hinv : nothing_missed s).
  { apply run_nothing_missed. unfold nothing_missed. simpl. intros _ i.
    reflexivity. }
  unfold nothing_missed in Hinv. split.
  - intros Htask. rewrite Htask in Hinv. exact Hinv.
  - intros k [Htask | Htask]; rewrite Htask in Hinv; apply Hinv.
Qed.

Lemma in_filter_seq (f : nat → bool) (i a d : nat) :
  a ≤ i < a + d → f i = true → i ∈ List.filter f (seq a d).
Proof.
  intros Hi Hf. apply list_elem_of_In, List.filter_In.
  split; [apply in_seq; lia | exact Hf].
Qed.

(** A task in its [for], with writers that return and nothing pending
    behind it unless the signal is raised: it finishes the pass, wakes up
    once more if the signal is raised, and is then blocked with every flag
    clear, having called the writer of every entry that was pending. *)
Lemma served_from_entry s (k i n : nat) :
  writerTask s = AtEntry k → k ≤ length (writers s) → all_return s →
  (writerSemaphore s = false → ∀ j, j < k → pending s j = false) →
  pending s i = true →
  4 * length (writers s) + 3 ≤ n →
  (∃ called, invoked (invoker_steps n s) = invoked s ++ called ∧ i ∈ called) ∧
  (∀ j, pending (invoker_steps n s) j = false) ∧
  writerTask (invoker_steps n s) = AtTake ∧
  writerSemaphore (invoker_steps n s) = false.
Proof.
  intros Htask Hk Hret Hbehind Hi Hn.
  pose proof (pending_lt s i Hi) as Hlt.
  destruct (scan_range (length (writers s) - k) k s Htask ltac:(lia))
    as (c & Hc & Hs1).
  { intros j p _ Hj. unfold all_return in Hret. rewrite Forall_lookup in Hret.
    by apply (Hret j). }
  cbv zeta in Hs1. remember (invoker_steps c s) as s1 eqn:Hdef1.
  destruct Hs1 as (Htask1 & Hsem1 & _ & Hinv1 & Hwr1 & Hpend1).
  replace (k + (length (writers s) - k)) with (length (writers s)) in * by lia.
  assert (Hlen1 : length (writers s1) = length (writers s)).
  { by rewrite (writers_length_fmap s1), Hwr1, <- writers_length_fmap. }
  remember (invoker_step s1) as s2 eqn:Hdef2.
  assert (Hs2 : s2 = with_task AtTake s1).
  { rewrite Hdef2. unfold invoker_step, WriterInvokerEntryPoint. rewrite Htask1.
    rewrite (proj2 (lookup_ge_None _ _)) by lia. reflexivity. }
  assert (Hsteps : invoker_steps n s = invoker_steps (n - (c + 1)) s2).
  { replace n with ((n - (c + 1)) + (1 + c)) at 1 by lia.
    rewrite invoker_steps_add, (invoker_steps_add 1 c), <- Hdef1.
    change (invoker_steps 1 s1) with (invoker_step s1). by rewrite <- Hdef2. }
  assert (Hpend2 : ∀ j, pending s2 j =
            if decide (k ≤ j < length (writers s)) then false else pending s j).
  { intros j. rewrite Hs2. exact (Hpend1 j). }
  rewrite Hsteps.
  destruct (writerSemaphore s) eqn:Hsem.
  - (* the signal is raised: one more wake-up *)
    assert (Hret2 : all_return s2).
    { unfold all_return. rewrite Hs2. cbn [writers with_task]. by rewrite Hwr1. }
    destruct (wake_cycle s2 (n - (c + 1))) as (Ht & Hs & _ & Hinv & Hclear & _).
    { by rewrite Hs2. }
    { rewrite Hs2. cbn. by rewrite Hsem1. }
    { exact Hret2. }
    { rewrite Hs2. cbn [writers with_task]. lia. }
    cbv zeta in Ht, Hs, Hinv, Hclear.
    split; [| by repeat split].
    eexists. split.
    { rewrite Hinv, Hs2. cbn [invoked with_task]. rewrite Hinv1, <- app_assoc. reflexivity. }
    apply elem_of_app. destruct (decide (k ≤ i)) as [Hki | Hki].
    + left. apply in_filter_seq; [lia | exact Hi].
    + right. rewrite <- Hs2. apply in_filter_seq.
      * rewrite Hs2. cbn [writers with_task]. lia.
      * rewrite Hpend2. rewrite decide_False by lia. exact Hi.
  - (* the signal is not raised: the task blocks *)
    assert (Hstuck : WriterInvokerEntryPoint s2 = None).
    { rewrite Hs2. unfold WriterInvokerEntryPoint, xSemaphoreTake. cbn.
      by rewrite Hsem1. }
    rewrite invoker_steps_stuck by exact Hstuck.
    assert (Hki : k ≤ i).
    { destruct (decide (k ≤ i)) as [Hki | Hki]; [exact Hki |].
      rewrite (Hbehind eq_refl i) in Hi by lia. discriminate Hi. }
    split.
    { eexists. split.
      - rewrite Hs2. cbn [invoked with_task]. exact Hinv1.
      - apply in_filter_seq; [lia | exact Hi]. }
    split.
    { intros j. rewrite Hpend2. case_decide as Hj; [reflexivity |].
      destruct (decide (j < k)) as [Hjk | Hjk]; [by apply Hbehind |].
      unfold pending. by rewrite (proj2 (lookup_ge_None _ _)) by lia. }
    split; [by rewrite Hs2 |]. rewrite Hs2. cbn. by rewrite Hsem1.
Qed.

(** X13.  Registering into a full vector cancels the requests made so
    far: if the task is at [xSemaphoreTake] with the signal raised and the
    vector is full, then after [RegisterWriter] the wake-up that follows
    calls no writer and leaves the world as it was, whatever was flagged. *)
Theorem registration_cancels_requests p s (n : nat) :
  length (writers s) = writers_capacity s →
  writerTask s = AtTake → writerSemaphore s = true →
  2 * length (writers s) + 4 ≤ n →
  let s' := invoker_steps n (snd (RegisterWriter p s)) in
  invoked s' = invoked s ∧ world s' = world s ∧
  writerTask s' = AtTake ∧ writerSemaphore s' = false ∧
  wakeups s' = S (wakeups s).
Proof.
  intros Hfull Htask Hsem Hn.
  destruct (RegisterWriter_frame p s) as (Hsem' & Htask' & _).
  destruct (RegisterWriter_index p s) as [_ Hlen].
  assert (Hidle : Forall (λ e, flag e = false) (writers (snd (RegisterWriter p s)))).
  { unfold RegisterWriter, emplace_back. simpl. rewrite decide_True by exact Hfull.
    simpl. apply Forall_app. split.
    - apply Forall_fmap, Forall_true. intros e. reflexivity.
    - by repeat constructor. }
  destruct (wake_up_steps (snd (RegisterWriter p s)) n) as [Hsteps _].
  { by rewrite Htask'. }
  { by rewrite Hsem'. }
  { rewrite Hlen. lia. }
  cbv zeta. rewrite Hsteps. unfold wake_up.
  rewrite for_entries_idle by exact Hidle. cbn.
  rewrite app_nil_r.
  unfold RegisterWriter, emplace_back. simpl.
  destruct (decide _); repeat split; reflexivity.
Qed.

(** Wake-ups, and the signal if raised, are paid for by flag calls. *)
Lemma run_wakeups (calls : list (call World)) :
  ∀ s (m : nat),
    wakeups s + (if writerSemaphore s then 1 else 0) ≤ m →
    wakeups (run calls s) + (if writerSemaphore (run calls s) then 1 else 0)
      ≤ m + length (flagged calls).
Proof.
  induction calls as [| c calls IH]; intros s m Hm.
  - simpl. lia.
  - change (run (c :: calls) s) with (run calls (perform c s)).
    rewrite flagged_cons, length_app.
    specialize (IH (perform c s) (m + length (flagged [c]))).
    rewrite <- Nat.add_assoc in IH. apply IH. clear IH.
    destruct c as [p | j |]; cbn [perform flagged length].
    + destruct (RegisterWriter_frame p s) as (-> & _ & _).
      unfold RegisterWriter, emplace_back. simpl. destruct (decide _); simpl; lia.
    + unfold FlagWriter. destruct (decide _); simpl.
      * lia.
      * destruct (writerSemaphore s); lia.
    + revert Hm. unfold invoker_step, WriterInvokerEntryPoint, xSemaphoreTake.
      destruct (writerTask s) as [| k | k |]; cbn [default]; try lia.
      * destruct (writerSemaphore s) eqn:Hsem; simpl; rewrite ?Hsem; lia.
      * destruct (writers s !! k) as [e |]; [| simpl; lia].
        destruct (flag e); simpl; lia.
      * destruct (writers s !! k) as [e |]; [| simpl; lia].
        destruct (writer e (world s)) as [[|] w]; simpl; lia.
Qed.

(** X15.  The task wakes up at most once per flag call: from a new
    coordinator and in every orderly run, the number of wake-ups, plus one if the signal is raised,
    never exceeds the number of [FlagWriter] calls made. *)
Theorem wake_ups_bounded_by_flag_calls (calls : list (call World)) (w0 : World) :
  orderly calls (JSONWriter_new w0) →
  wakeups (run calls (JSONWriter_new w0))
  + (if writerSemaphore (run calls (JSONWriter_new w0)) then 1 else 0)
  ≤ length (flagged calls).
Proof. intros _. apply (run_wakeups calls (JSONWriter_new w0) 0). simpl. lia. Qed.

End WithWorld.

(** The theorem at [one_flagged]: the request for entry 0 is dropped. *)
Lemma registration_cancels_requests_witness :
  pending one_flagged 0 = true ∧
  invoked (invoker_steps 6 (snd (RegisterWriter (saves 11) one_flagged))) = [] ∧
  world (invoker_steps 6 (snd (RegisterWriter (saves 11) one_flagged))) = [].
Proof.
  split; [reflexivity |].
  destruct (registration_cancels_requests (saves 11) one_flagged 6
              eq_refl eq_refl eq_refl ltac:(simpl; lia)) as (Hinv & Hworld & _).
  split; [exact Hinv | exact Hworld].
Defined.

(** The theorem at a run that ends with the task blocked after the request
    lost in [one_running]: no flag is set. *)
Lemma never_asleep_on_a_request_witness :
  pending (run [Register (saves 10); Flag 0; Invoker; Invoker; Flag 0;
                Invoker; Invoker; Invoker; Invoker; Invoker]
               (JSONWriter_new ([] : list nat))) 0 = false.
Proof.
  destruct (never_asleep_on_a_request
              [Register (saves 10); Flag 0; Invoker; Invoker; Flag 0;
               Invoker; Invoker; Invoker; Invoker; Invoker] ([] : list nat))
    as [Hblocked _].
  - simpl. repeat split; try reflexivity; discriminate.
  - apply Hblocked; reflexivity.
Defined.

(** The theorem at [flag_burst] after two registrations: four flag calls,
    one wake-up. *)
Lemma wake_ups_bounded_by_flag_calls_witness :
  wakeups (run ([Register (saves 10); Register (saves 11)] ++ flag_burst
                  ++ replicate 6 Invoker) (JSONWriter_new ([] : list nat)))
  + (if writerSemaphore
          (run ([Register (saves 10); Register (saves 11)] ++ flag_burst
                  ++ replicate 6 Invoker) (JSONWriter_new ([] : list nat)))
     then 1 else 0) ≤ 4.
Proof.
  apply (wake_ups_bounded_by_flag_calls
           ([Register (saves 10); Register (saves 11)] ++ flag_burst
              ++ replicate 6 Invoker) ([] : list nat)).
  simpl. repeat split; try reflexivity; discriminate.
Defined.

End WriterService.

(** ** Passes over the registry, and the coordinator's guarantees *)
Module WriterPasses.
Import Writer WriterFacts WriterRuns WriterService.

Section WithWorld.
Context {World : Type}.
Implicit Types (s : JSONWriter World) (p : procedure World) (e : WriterEntry World).

(** *** Passes *)

Lemma run_pending_app (l1 l2 : list (WriterEntry World)) (w : World) :
  run_pending (l1 ++ l2) w = run_pending l2 (run_pending l1 w).
Proof. unfold run_pending. apply foldl_app. Qed.

Lemma run_pending_idle (entries : list (WriterEntry World)) (w : World) :
  Forall (λ e, flag e = false) entries → run_pending entries w = w.
Proof.
  intros Hidle. revert w. induction Hidle as [| e rest He Hrest IH]; intros w.
  - reflexivity.
  - unfold run_pending in *. simpl. rewrite He. apply IH.
Qed.

Lemma move_idle (entries : list (WriterEntry World)) :
  Forall (λ e, flag e = false) entries → WriterEntry_move <$> entries = entries.
Proof.
  induction 1 as [| e rest He Hrest IH]; [reflexivity |].
  rewrite fmap_cons, IH. f_equal.
  destruct e as [fl wr]. simpl in He. subst fl. reflexivity.
Qed.

Lemma moved_idle (entries : list (WriterEntry World)) :
  Forall (λ e, flag e = false) (WriterEntry_move <$> entries).
Proof. apply Forall_fmap, Forall_true. intros e. reflexivity. Qed.

Lemma pending_indices_idle (entries : list (WriterEntry World)) (k : nat) :
  Forall (λ e, flag e = false) entries → pending_indices entries k = [].
Proof.
  intros Hidle. revert k. induction Hidle as [| e rest He Hrest IH]; intros k.
  - reflexivity.
  - simpl. rewrite He. apply IH.
Qed.

Lemma pending_indices_filter (entries : list (WriterEntry World)) :
  ∀ k, pending_indices entries k =
       List.filter (λ i, match entries !! (i - k) with
                         | Some e => flag e
                         | None => false
                         end) (seq k (length entries)).
Proof.
  induction entries as [| e rest IH]; intros k; [reflexivity |].
  cbn [pending_indices length seq List.filter]. rewrite Nat.sub_diag. cbn [lookup list_lookup].
  assert (Hrest : pending_indices rest (S k) =
            List.filter (λ i, match (e :: rest) !! (i - k) with
                              | Some e' => flag e'
                              | None => false
                              end) (seq (S k) (length rest))).
  { rewrite IH. apply List.filter_ext_in. intros i Hi. apply in_seq in Hi.
    replace (i - k) with (S (i - S k)) by lia. reflexivity. }
  rewrite Hrest. destruct (flag e); reflexivity.
Qed.

Lemma pending_indices_pending s :
  pending_indices (writers s) 0 = List.filter (pending s) (seq 0 (length (writers s))).
Proof.
  rewrite pending_indices_filter. apply List.filter_ext. intros i.
  by rewrite Nat.sub_0_r.
Qed.

Lemma pending_indices_take s (k : nat) :
  k ≤ length (writers s) →
  pending_indices (take k (writers s)) 0 = List.filter (pending s) (seq 0 k).
Proof.
  intros Hk. rewrite pending_indices_filter, length_take, Nat.min_l by lia.
  apply List.filter_ext_in. intros i Hi. apply in_seq in Hi.
  rewrite Nat.sub_0_r, lookup_take_lt by lia. reflexivity.
Qed.

Lemma pending_return_cons e (rest : list (WriterEntry World)) (w : World) :
  pending_return (e :: rest) w →
  (flag e = true → fst (writer e w) = Returns) ∧
  pending_return rest (if flag e then snd (writer e w) else w).
Proof.
  intros Hret. split.
  - intros He. by apply (Hret 0 e).
  - intros i e' Hi He'. by apply (Hret (S i) e').
Qed.

Lemma all_return_pending (entries : list (WriterEntry World)) (w : World) :
  Forall (λ p : procedure World, ∀ w, fst (p w) = Returns) (writer <$> entries) →
  pending_return entries w.
Proof.
  intros Hret i e Hi _. rewrite Forall_lookup in Hret.
  apply (Hret i (writer e)). by rewrite list_lookup_fmap, Hi.
Qed.

(** A pass goes through a stretch of entries whose pending writers return
    as the definitions say: flags cleared, writers run in order, indices
    recorded; what follows the stretch is a pass of its own, on the world
    the stretch has left. *)
Lemma for_entries_app (before : list (WriterEntry World)) :
  ∀ (rest : list (WriterEntry World)) (k0 : nat) (w : World) rest' w' called cmp,
    pending_return before w →
    for_entries rest (k0 + length before) (run_pending before w) = (rest', w', called, cmp) →
    for_entries (before ++ rest) k0 w =
      ((WriterEntry_move <$> before) ++ rest', w', pending_indices before k0 ++ called, cmp).
Proof.
  induction before as [| e before IH]; intros rest k0 w rest' w' called cmp Hret Hrest.
  - simpl in *. rewrite Nat.add_0_r in Hrest. exact Hrest.
  - destruct (pending_return_cons e before w Hret) as [He Hbefore].
    change ((e :: before) ++ rest) with (e :: (before ++ rest)).
    cbn [for_entries pending_indices].
    change (run_pending (e :: before) w)
      with (run_pending before (if flag e then snd (writer e w) else w)) in Hrest.
    replace (k0 + length (e :: before)) with (S k0 + length before) in Hrest
      by (simpl; lia).
    destruct (flag e) eqn:Hfl.
    + specialize (He eq_refl). destruct (writer e w) as [c0 w0]. simpl in He. subst c0.
      simpl in Hbefore, Hrest.
      rewrite (IH rest (S k0) w0 rest' w' called cmp Hbefore Hrest).
      reflexivity.
    + rewrite (IH rest (S k0) w rest' w' called cmp Hbefore Hrest).
      rewrite fmap_cons. do 3 f_equal.
      destruct e as [fl wr]. simpl in Hfl. subst fl. reflexivity.
Qed.

(** A pass whose pending writers return. *)
Lemma for_entries_returns (entries : list (WriterEntry World)) (k0 : nat) (w : World) :
  pending_return entries w →
  for_entries entries k0 w =
    (WriterEntry_move <$> entries, run_pending entries w, pending_indices entries k0, Returns).
Proof.
  intros Hret.
  pose proof (for_entries_app entries [] k0 w [] (run_pending entries w) [] Returns Hret eq_refl)
    as Happ.
  by rewrite !app_nil_r in Happ.
Qed.

(** A pass whose pending writer [k] is the first to throw. *)
Lemma for_entries_throws (entries : list (WriterEntry World)) (k0 k : nat) (w : World) e :
  entries !! k = Some e → flag e = true →
  pending_return (take k entries) w →
  fst (writer e (run_pending (take k entries) w)) = Throws →
  for_entries entries k0 w =
    ((WriterEntry_move <$> take k entries) ++ drop k entries,
     snd (writer e (run_pending (take k entries) w)),
     pending_indices (take k entries) k0 ++ [k0 + k], Throws).
Proof.
  intros He Hfl Hret Hthrows.
  pose proof (lookup_lt_Some _ _ _ He) as Hk.
  rewrite <- (take_drop_middle entries k e He) at 1.
  rewrite (drop_S entries e k He).
  apply for_entries_app; [exact Hret |].
  rewrite length_take, Nat.min_l by lia.
  cbn [for_entries]. rewrite Hfl.
  destruct (writer e (run_pending (take k entries) w)) as [c0 w0].
  simpl in Hthrows. subst c0. reflexivity.
Qed.


(** *** A wake-up with flag calls in between *)






(** *** Wake-ups *)

(** C3, amended.  The loop has no handler around [entry.writer()].  From
    [xSemaphoreTake] with the signal raised, and with no call in between:
    if every pending writer returns when it is called, the wake-up calls
    every pending writer once, in index order, each on the world the one
    before left, clears their flags, and the task goes back to waiting; if
    the pending writer of entry [k] is the first to throw, the pending
    writers before [k] and then writer [k] have run, nothing after [k] has,
    the entries from [k] on are as they were, and the task is gone for
    good. *)
Theorem no_handler_around_writer s (n : nat) :
  writerTask s = AtTake → writerSemaphore s = true →
  2 * length (writers s) + 2 ≤ n →
  let s' := invoker_steps n s in
  (pending_return (writers s) (world s) →
     invoked s' = invoked s ++ List.filter (pending s) (seq 0 (length (writers s))) ∧
     world s' = run_pending (writers s) (world s) ∧
     writers s' = WriterEntry_move <$> writers s ∧
     writerTask s' = AtTake ∧ writerSemaphore s' = false) ∧
  (∀ (k : nat) e,
     writers s !! k = Some e → flag e = true →
     pending_return (take k (writers s)) (world s) →
     fst (writer e (run_pending (take k (writers s)) (world s))) = Throws →
     invoked s' = invoked s ++ List.filter (pending s) (seq 0 k) ++ [k] ∧
     world s' = snd (writer e (run_pending (take k (writers s)) (world s))) ∧
     writers s' = (WriterEntry_move <$> take k (writers s)) ++ drop k (writers s) ∧
     writerTask s' = Gone ∧ WriterInvokerEntryPoint s' = None).
Proof.
  intros Htask Hsem Hn s'.
  destruct (wake_up_steps s n Htask Hsem Hn) as [Hsteps Hstuck].
  unfold s'. rewrite Hsteps. split.
  - intros Hret. unfold wake_up.
    rewrite (for_entries_returns _ 0 _ Hret), pending_indices_pending.
    repeat split; reflexivity.
  - intros k e He Hfl Hret Hthrows.
    pose proof (lookup_lt_Some _ _ _ He) as Hk.
    unfold wake_up in *.
    rewrite (for_entries_throws _ 0 k _ e He Hfl Hret Hthrows) in *.
    rewrite pending_indices_take by lia.
    repeat split; reflexivity.
Qed.


(** *** The registry *)

Lemma alter_lookup_insert (f : WriterEntry World → WriterEntry World)
    (entries : list (WriterEntry World)) (i : nat) e :
  entries !! i = Some e → alter f i entries = <[i := f e]> entries.
Proof.
  intros He. apply list_eq. intros j.
  destruct (decide (i = j)) as [<- | Hne].
  - rewrite list_lookup_alter_eq, He. simpl.
    symmetry. apply list_lookup_insert_eq. by apply lookup_lt_Some in He.
  - by rewrite list_lookup_alter_ne, list_lookup_insert_ne.
Qed.

(** C6.  A move-constructed entry has its flag clear, whatever the flag of
    the entry it is made from, and the same writer; so when [RegisterWriter]
    finds the vector full, the registry afterwards is the old entries in
    their places, each with its writer and its flag clear, followed by the
    new entry: no earlier entry is pending any more. *)
Theorem move_discards_pending :
  (∀ e, flag (WriterEntry_move e) = false ∧ writer (WriterEntry_move e) = writer e) ∧
  (∀ p s,
     length (writers s) = writers_capacity s →
     writers (snd (RegisterWriter p s)) =
       (WriterEntry_move <$> writers s) ++ [WriterEntry_of p] ∧
     (∀ (i : nat) e, writers s !! i = Some e →
        writers (snd (RegisterWriter p s)) !! i =
          Some {| flag := false; writer := writer e |}) ∧
     (∀ i : nat, i < length (writers s) → pending (snd (RegisterWriter p s)) i = false)).
Proof.
  split; [intros e; split; reflexivity |].
  intros p s Hfull.
  assert (Hws : writers (snd (RegisterWriter p s)) =
                (WriterEntry_move <$> writers s) ++ [WriterEntry_of p]).
  { unfold RegisterWriter, emplace_back. simpl.
    rewrite decide_True by exact Hfull. reflexivity. }
  assert (Hold : ∀ (i : nat) e, writers s !! i = Some e →
            writers (snd (RegisterWriter p s)) !! i =
              Some {| flag := false; writer := writer e |}).
  { intros i e He. rewrite Hws.
    rewrite lookup_app_l by (rewrite length_fmap; by apply lookup_lt_Some in He).
    by rewrite list_lookup_fmap, He. }
  split; [exact Hws |]. split; [exact Hold |].
  intros i Hi. destruct (lookup_lt_is_Some_2 (writers s) i Hi) as [e He].
  unfold pending. by rewrite (Hold i e He).
Qed.

Lemma idle_entries s :
  (∀ j, pending s j = false) → Forall (λ e, flag e = false) (writers s).
Proof.
  intros Hidle. apply Forall_lookup. intros j e He.
  specialize (Hidle j). unfold pending in Hidle. by rewrite He in Hidle.
Qed.

(** One flag call on an idle coordinator, and the wake-up that follows:
    the writer of that entry is called, on the world as it is, and no
    other. *)
Lemma flag_then_wake_up s (i n : nat) e :
  writerTask s = AtTake → (∀ j, pending s j = false) →
  writers s !! i = Some e →
  2 * length (writers s) + 2 ≤ n →
  invoked (invoker_steps n (FlagWriter i s)) = invoked s ++ [i] ∧
  world (invoker_steps n (FlagWriter i s)) = snd (writer e (world s)).
Proof.
  intros Htask Hidle He Hn.
  pose proof (lookup_lt_Some _ _ _ He) as Hi.
  pose proof (idle_entries s Hidle) as Hws.
  rewrite FlagWriter_valid by exact Hi.
  remember (xSemaphoreGive (store_flag i true s)) as s1 eqn:Hdef1.
  assert (Hs1 : s1 = mkWriter (take i (writers s)
                                 ++ {| flag := true; writer := writer e |}
                                      :: drop (S i) (writers s))
                              (writers_capacity s) true AtTake (world s)
                              (invoked s) (wakeups s)).
  { rewrite Hdef1. unfold xSemaphoreGive, store_flag, with_writers. cbn.
    rewrite (alter_lookup_insert _ _ _ e He), insert_take_drop by exact Hi.
    by rewrite Htask. }
  destruct (wake_up_steps s1 n) as [Hsteps _].
  { by rewrite Hs1. }
  { by rewrite Hs1. }
  { rewrite Hdef1. cbn. rewrite length_alter. lia. }
  rewrite Hsteps, Hs1. unfold wake_up. cbn [writers world invoked writers_capacity wakeups].
  assert (Hfor : ∃ rest' cmp,
            for_entries (take i (writers s)
                           ++ {| flag := true; writer := writer e |}
                                :: drop (S i) (writers s)) 0 (world s)
            = ((WriterEntry_move <$> take i (writers s)) ++ rest',
               snd (writer e (world s)),
               pending_indices (take i (writers s)) 0 ++ [i], cmp)).
  { assert (Hbefore : Forall (λ e, flag e = false) (take i (writers s)))
      by (by apply Forall_take).
    assert (Hafter : Forall (λ e, flag e = false) (drop (S i) (writers s)))
      by (by apply Forall_drop).
    destruct (writer e (world s)) as [cmp w0] eqn:Hw.
    destruct cmp.
    - exists ({| flag := false; writer := writer e |} :: drop (S i) (writers s)), Returns.
      apply for_entries_app.
      + intros j e' Hj Hfl. rewrite Forall_lookup in Hbefore.
        rewrite (Hbefore j e' Hj) in Hfl. discriminate Hfl.
      + rewrite run_pending_idle by exact Hbefore.
        rewrite length_take, Nat.min_l by lia. cbn [for_entries flag writer Nat.add].
        rewrite Hw, for_entries_idle by exact Hafter. reflexivity.
    - exists ({| flag := true; writer := writer e |} :: drop (S i) (writers s)), Throws.
      apply for_entries_app.
      + intros j e' Hj Hfl. rewrite Forall_lookup in Hbefore.
        rewrite (Hbefore j e' Hj) in Hfl. discriminate Hfl.
      + rewrite run_pending_idle by exact Hbefore.
        rewrite length_take, Nat.min_l by lia. cbn [for_entries flag writer Nat.add].
        rewrite Hw. reflexivity. }
  destruct Hfor as (rest' & cmp & ->). cbn.
  rewrite pending_indices_idle by (by apply Forall_take).
  split; reflexivity.
Qed.

(** C5.  Index stability: from a new coordinator and in orderly runs, the
    [Register] calls return 0, 1, 2, ... in turn, each the length the
    registry had; the registry holds the registered writers in that order,
    and whatever is called afterwards, registrations included, entry [i]
    keeps the writer of the [i]-th registration.  [FlagWriter i] then sets
    the flag of that entry and of no other and raises the signal, and if the
    task is waiting with nothing else pending, the wake-up that follows
    runs the writer of the [i]-th registration, and only it. *)
Theorem index_stability (calls more : list (call World)) (w0 : World) :
  orderly calls (JSONWriter_new w0) →
  orderly more (run calls (JSONWriter_new w0)) →
  let s := run calls (JSONWriter_new w0) in
  let s' := run more s in
  handles calls (JSONWriter_new w0) = seq 0 (length (registered calls)) ∧
  writer <$> writers s = registered calls ∧
  (∀ p, fst (RegisterWriter p s) = length (writers s) ∧
        writer <$> writers (snd (RegisterWriter p s)) = (writer <$> writers s) ++ [p]) ∧
  writer <$> writers s' = registered calls ++ registered more ∧
  (∀ i p, registered calls !! i = Some p →
     (∃ e, writers s' !! i = Some e ∧ writer e = p) ∧
     writers (FlagWriter i s') = <[i := {| flag := true; writer := p |}]> (writers s') ∧
     writerSemaphore (FlagWriter i s') = true ∧
     (writerTask s' = AtTake → (∀ j, pending s' j = false) →
      ∀ n, 2 * length (writers s') + 2 ≤ n →
        invoked (invoker_steps n (FlagWriter i s')) = invoked s' ++ [i] ∧
        world (invoker_steps n (FlagWriter i s')) = snd (p (world s')))).
Proof.
  intros _ _ s s'.
  destruct (run_registry calls (JSONWriter_new w0)) as [Hwr Hh]. fold s in Hwr.
  simpl in Hwr, Hh.
  destruct (run_registry more s) as [Hwr' _]. fold s' in Hwr'. rewrite Hwr in Hwr'.
  split; [exact Hh |]. split; [exact Hwr |].
  split; [intros p; split; [apply RegisterWriter_index | apply emplace_back_writer] |].
  split; [exact Hwr' |].
  intros i p Hi.
  assert (Hlook : (writer <$> writers s') !! i = Some p).
  { rewrite Hwr'. by apply lookup_app_l_Some. }
  rewrite list_lookup_fmap in Hlook.
  destruct (writers s' !! i) as [e |] eqn:He; [| discriminate Hlook].
  simpl in Hlook. injection Hlook as Hp.
  pose proof (lookup_lt_Some _ _ _ He) as Hlt.
  split; [by exists e |].
  rewrite FlagWriter_valid by exact Hlt.
  split.
  { unfold xSemaphoreGive, store_flag, with_writers. cbn.
    by rewrite (alter_lookup_insert _ _ _ e He), Hp. }
  split; [reflexivity |].
  intros Htask Hidle n Hn.
  rewrite <- FlagWriter_valid by exact Hlt. rewrite <- Hp.
  by apply flag_then_wake_up.
Qed.

(** *** From the middle of a pass *)

(** The rest of a pass whose pending writers return, whether or not the
    signal has been raised again meanwhile. *)
Lemma rest_of_pass (todo : list (WriterEntry World)) :
  ∀ (done : list (WriterEntry World)) s,
    pending_return todo (world s) →
    writers s = done ++ todo →
    writerTask s = AtEntry (length done) →
    ∃ c, c ≤ 2 * length todo + 1 ∧
      invoker_steps c s =
        mkWriter (done ++ (WriterEntry_move <$> todo)) (writers_capacity s)
                 (writerSemaphore s) AtTake (run_pending todo (world s))
                 (invoked s ++ pending_indices todo (length done)) (wakeups s).
Proof.
  induction todo as [| entry rest IH]; intros done s Hret Hws Htask.
  - exists 1. split; [simpl; lia |].
    change (invoker_steps 1 s) with (invoker_step s).
    unfold invoker_step, WriterInvokerEntryPoint. rewrite Htask, Hws.
    rewrite (proj2 (lookup_ge_None _ _)) by (rewrite app_nil_r; lia).
    cbn. unfold with_task. rewrite Hws, !app_nil_r. reflexivity.
  - assert (Hk : writers s !! length done = Some entry).
    { rewrite Hws. by apply list_lookup_middle. }
    destruct (pending_return_cons entry rest (world s) Hret) as [He Hrest].
    assert (Hlen : ∀ e', length (done ++ [e']) = S (length done)).
    { intros e'. rewrite length_app. simpl. lia. }
    destruct (flag entry) eqn:Hfl.
    + specialize (He eq_refl).
      destruct (writer entry (world s)) as [c0 w0] eqn:Hw. simpl in He. subst c0.
      simpl in Hrest.
      set (cleared := {| flag := false; writer := writer entry |}).
      remember (invoker_step s) as s1 eqn:Hdef1.
      assert (Hs1 : s1 = mkWriter (writers s) (writers_capacity s) (writerSemaphore s)
                                  (InWriter (length done)) (world s)
                                  (invoked s ++ [length done]) (wakeups s)).
      { rewrite Hdef1. unfold invoker_step, WriterInvokerEntryPoint.
        rewrite Htask, Hk, Hfl. reflexivity. }
      remember (invoker_step s1) as s2 eqn:Hdef2.
      assert (Hs2 : s2 = mkWriter ((done ++ [cleared]) ++ rest) (writers_capacity s)
                                  (writerSemaphore s) (AtEntry (S (length done))) w0
                                  (invoked s ++ [length done]) (wakeups s)).
      { rewrite Hdef2, Hs1. unfold invoker_step, WriterInvokerEntryPoint.
        cbn [writerTask writers world]. rewrite Hk, Hw.
        cbn [default]. unfold with_task, store_flag, with_writers, with_world.
        cbn. rewrite Hws, alter_middle, <- app_assoc. reflexivity. }
      destruct (IH (done ++ [cleared]) s2) as (c & Hc & Hrun).
      { rewrite Hs2. exact Hrest. }
      { rewrite Hs2. reflexivity. }
      { rewrite Hlen, Hs2. reflexivity. }
      exists (c + 2). split; [simpl; lia |].
      rewrite invoker_steps_add.
      change (invoker_steps 2 s) with (invoker_step (invoker_step s)).
      rewrite <- Hdef1, <- Hdef2, Hrun, Hs2, Hlen.
      cbn [writers_capacity writerSemaphore world invoked wakeups pending_indices fmap list_fmap].
      unfold run_pending. cbn [foldl]. rewrite Hfl, Hw. cbn [snd].
      rewrite <- !app_assoc. reflexivity.
    + remember (invoker_step s) as s1 eqn:Hdef1.
      assert (Hs1 : s1 = mkWriter ((done ++ [entry]) ++ rest) (writers_capacity s)
                                  (writerSemaphore s) (AtEntry (S (length done)))
                                  (world s) (invoked s) (wakeups s)).
      { rewrite Hdef1. unfold invoker_step, WriterInvokerEntryPoint.
        rewrite Htask, Hk, Hfl. cbn [default]. unfold with_task.
        rewrite Hws, <- app_assoc. reflexivity. }
      destruct (IH (done ++ [entry]) s1) as (c & Hc & Hrun).
      { rewrite Hs1. exact Hrest. }
      { rewrite Hs1. reflexivity. }
      { rewrite Hlen, Hs1. reflexivity. }
      exists (c + 1). split; [simpl; lia |].
      rewrite invoker_steps_add.
      change (invoker_steps 1 s) with (invoker_step s).
      rewrite <- Hdef1, Hrun, Hs1, Hlen.
      cbn [writers_capacity writerSemaphore world invoked wakeups pending_indices fmap list_fmap].
      unfold run_pending. cbn [foldl]. rewrite Hfl.
      rewrite <- !app_assoc. do 3 f_equal.
      destruct entry as [fl wr]. simpl in Hfl. subst fl. reflexivity.
Qed.

(** The world a task in its [for] leaves, the writers returning and nothing
    pending behind it unless the signal is raised. *)
Lemma world_from_entry s (k n : nat) :
  writerTask s = AtEntry k → k ≤ length (writers s) → all_return s →
  (writerSemaphore s = false → ∀ j, j < k → pending s j = false) →
  4 * length (writers s) + 3 ≤ n →
  world (invoker_steps n s)
  = run_pending (take k (writers s)) (run_pending (drop k (writers s)) (world s)).
Proof.
  intros Htask Hk Hret Hbehind Hn.
  assert (Hretw : ∀ (entries : list (WriterEntry World)) w,
            (∃ l1 l2, writers s = l1 ++ entries ++ l2) → pending_return entries w).
  { intros entries w (l1 & l2 & Hsplit). apply all_return_pending.
    unfold all_return in Hret. rewrite Hsplit, !fmap_app in Hret.
    apply Forall_app in Hret as [_ Hret]. by apply Forall_app in Hret as [Hret _]. }
  destruct (rest_of_pass (drop k (writers s)) (take k (writers s)) s) as (c & Hc & Hrun).
  { apply Hretw. exists (take k (writers s)), []. by rewrite app_nil_r, take_drop. }
  { by rewrite take_drop. }
  { by rewrite length_take, Nat.min_l by lia. }
  rewrite length_drop in Hc.
  remember (invoker_steps c s) as s1 eqn:Hdef1.
  assert (Hsteps : invoker_steps n s = invoker_steps (n - c) s1).
  { replace n with ((n - c) + c) at 1 by lia.
    by rewrite invoker_steps_add, <- Hdef1. }
  rewrite Hsteps.
  destruct (writerSemaphore s) eqn:Hsem.
  - destruct (wake_up_steps s1 (n - c)) as [-> _].
    { by rewrite Hrun. }
    { by rewrite Hrun. }
    { rewrite Hrun. cbn [writers]. rewrite length_app, length_fmap, length_take, length_drop. lia. }
    unfold wake_up. rewrite Hrun. cbn [writers world].
    rewrite (for_entries_returns _ 0 _).
    + cbn. rewrite run_pending_app.
      by rewrite (run_pending_idle (WriterEntry_move <$> _)) by apply moved_idle.
    + apply all_return_pending. rewrite fmap_app, <- list_fmap_compose.
      unfold all_return in Hret.
      rewrite <- (take_drop k (writers s)), fmap_app in Hret. exact Hret.
  - rewrite invoker_steps_stuck.
    + rewrite Hrun. cbn. symmetry. apply run_pending_idle.
      apply Forall_lookup. intros j e He.
      pose proof (lookup_lt_Some _ _ _ He) as Hj. rewrite length_take in Hj.
      rewrite lookup_take_lt in He by lia.
      specialize (Hbehind eq_refl j ltac:(lia)). unfold pending in Hbehind.
      by rewrite He in Hbehind.
    + rewrite Hrun. reflexivity.
Qed.

(** X12.  A request is served, the one for the running writer apart: from
    a new coordinator and after any orderly run, if the writers return, the
    task is alive and flag [i] is set while the task is not inside writer
    [i], then the task left to run calls writer [i]: the world it leaves is
    the one on which the pending writers from its place on, then those
    before its place, have run in turn; and it comes to rest at
    [xSemaphoreTake] with the signal consumed and every flag clear. *)
Theorem pending_requests_are_served (calls : list (call World)) (w0 : World) (i n : nat) :
  orderly calls (JSONWriter_new w0) →
  let s := run calls (JSONWriter_new w0) in
  all_return s →
  writerTask s ≠ Gone → writerTask s ≠ InWriter i →
  pending s i = true →
  4 * length (writers s) + 4 ≤ n →
  (∃ called, invoked (invoker_steps n s) = invoked s ++ called ∧ i ∈ called) ∧
  world (invoker_steps n s) = served_world s ∧
  (∀ j, pending (invoker_steps n s) j = false) ∧
  writerTask (invoker_steps n s) = AtTake ∧
  writerSemaphore (invoker_steps n s) = false.
Proof.
  intros _ s Hret Halive Hother Hi Hn.
  assert (Hinv : nothing_missed s).
  { apply run_nothing_missed. unfold nothing_missed. simpl. intros _ j. reflexivity. }
  pose proof (pending_lt s i Hi) as Hlt.
  unfold nothing_missed in Hinv. unfold served_world.
  destruct (writerTask s) as [| k | k |] eqn:Htask.
  - destruct (writerSemaphore s) eqn:Hsem.
    2:{ rewrite (Hinv eq_refl i) in Hi. discriminate Hi. }
    destruct (wake_cycle s n Htask Hsem Hret ltac:(lia)) as (Ht & Hs & _ & Hcalled & Hclear & _).
    cbv zeta in Ht, Hs, Hcalled, Hclear.
    split; [| split; [| by repeat split]].
    + eexists. split; [exact Hcalled |]. apply in_filter_seq; [lia | exact Hi].
    + destruct (wake_up_steps s n Htask Hsem ltac:(lia)) as [-> _].
      unfold wake_up. rewrite (for_entries_returns _ 0 _); [reflexivity |].
      by apply all_return_pending.
  - destruct Hinv as [Hk Hbehind].
    destruct (served_from_entry s k i n) as (Hcalled & Hrest); try assumption; [lia |].
    split; [exact Hcalled |]. split; [| exact Hrest].
    apply world_from_entry; try assumption. lia.
  - destruct Hinv as [Hk Hbehind].
    assert (Hik : i ≠ k) by congruence.
    destruct (writers s !! k) as [e |] eqn:He.
    2:{ apply lookup_ge_None in He. lia. }
    assert (Hreturns : fst (writer e (world s)) = Returns).
    { unfold all_return in Hret. rewrite Forall_lookup in Hret.
      apply (Hret k (writer e)). by rewrite list_lookup_fmap, He. }
    remember (invoker_step s) as s1 eqn:Hdef1.
    set (cleared := {| flag := false; writer := writer e |}).
    assert (Hs1 : s1 = mkWriter (take k (writers s) ++ cleared :: drop (S k) (writers s))
                                (writers_capacity s) (writerSemaphore s) (AtEntry (S k))
                                (snd (writer e (world s))) (invoked s) (wakeups s)).
    { rewrite Hdef1. unfold invoker_step, WriterInvokerEntryPoint.
      rewrite Htask, He. destruct (writer e (world s)) as [cmp w].
      simpl in Hreturns. subst cmp. cbn [default snd].
      unfold with_task, store_flag, with_writers, with_world. cbn.
      by rewrite (alter_lookup_insert _ _ _ e He), insert_take_drop by exact Hk. }
    assert (Hpend1 : ∀ j, pending s1 j =
              if decide (k = j ∧ j < length (writers s)) then false else pending s j).
    { intros j. rewrite Hdef1. unfold invoker_step, WriterInvokerEntryPoint.
      rewrite Htask, He. destruct (writer e (world s)) as [cmp w].
      simpl in Hreturns. subst cmp.
      exact (pending_store_flag k j false (with_world w s)). }
    assert (Hlen1 : length (writers s1) = length (writers s)).
    { rewrite Hs1. cbn [writers].
      rewrite length_app, length_take. cbn [length]. rewrite length_drop. lia. }
    assert (Hsteps : invoker_steps n s = invoker_steps (n - 1) s1).
    { replace n with ((n - 1) + 1) at 1 by lia.
      rewrite invoker_steps_add. change (invoker_steps 1 s) with (invoker_step s).
      by rewrite <- Hdef1. }
    assert (Hret1 : all_return s1).
    { unfold all_return. rewrite Hdef1, invoker_step_writer. exact Hret. }
    assert (Hbehind1 : writerSemaphore s1 = false → ∀ j, j < S k → pending s1 j = false).
    { intros Hsem j Hj. rewrite Hpend1. case_decide; [reflexivity |].
      apply Hbehind; [| lia]. rewrite Hs1 in Hsem. exact Hsem. }
    destruct (served_from_entry s1 (S k) i (n - 1)) as ((called & Hcalled & Hin) & Hrest).
    { by rewrite Hs1. }
    { lia. }
    { exact Hret1. }
    { exact Hbehind1. }
    { rewrite Hpend1. rewrite decide_False by (intros [? _]; congruence). exact Hi. }
    { lia. }
    rewrite Hsteps. split; [| split; [| exact Hrest]].
    + exists called. split; [| exact Hin]. rewrite Hcalled, Hs1. reflexivity.
    + rewrite (world_from_entry s1 (S k) (n - 1)); try assumption; try lia.
      2:{ by rewrite Hs1. }
      rewrite Hs1. cbn [writers world].
      assert (Htk : length (take k (writers s)) = k) by (rewrite length_take; lia).
      replace (take (S k) (take k (writers s) ++ cleared :: drop (S k) (writers s)))
        with (take k (writers s) ++ [cleared]).
      2:{ rewrite (take_app_ge _ _ (S k)) by lia. rewrite Htk.
          replace (S k - k) with 1 by lia. reflexivity. }
      replace (drop (S k) (take k (writers s) ++ cleared :: drop (S k) (writers s)))
        with (drop (S k) (writers s)).
      2:{ rewrite (drop_app_ge _ _ (S k)) by lia. rewrite Htk.
          replace (S k - k) with 1 by lia. reflexivity. }
      rewrite run_pending_app. reflexivity.
  - contradiction.
Qed.

End WithWorld.

(** *** The sample coordinators *)

Lemma two_flagged_pending_return :
  pending_return (writers two_flagged) (world two_flagged).
Proof. apply all_return_pending. exact two_flagged_return. Qed.


(** The amended theorem at [two_flagged], where every writer returns; at
    [quiet_thrower], where the writer that would throw is not pending; and
    at [three_flagged], where the pending writer of entry 1 throws. *)
Lemma no_handler_around_writer_witness :
  (world (invoker_steps 6 two_flagged) = [10; 11] ∧
   writerTask (invoker_steps 6 two_flagged) = AtTake) ∧
  (world (invoker_steps 6 quiet_thrower) = [10] ∧
   writerTask (invoker_steps 6 quiet_thrower) = AtTake) ∧
  (invoked (invoker_steps 8 three_flagged) = [0; 1] ∧
   world (invoker_steps 8 three_flagged) = [10; 11] ∧
   writerTask (invoker_steps 8 three_flagged) = Gone).
Proof.
  split; [| split].
  - destruct (no_handler_around_writer two_flagged 6 eq_refl eq_refl ltac:(simpl; lia))
      as [Hall _].
    destruct (Hall two_flagged_pending_return) as (_ & Hworld & _ & Htask & _).
    split; [rewrite Hworld; reflexivity | exact Htask].
  - destruct (no_handler_around_writer quiet_thrower 6 eq_refl eq_refl ltac:(simpl; lia))
      as [Hall _].
    destruct Hall as (_ & Hworld & _ & Htask & _).
    { intros [| [| i]] e Hi Hfl; simpl in Hi.
      - injection Hi as <-. reflexivity.
      - injection Hi as <-. discriminate Hfl.
      - discriminate Hi. }
    split; [rewrite Hworld; reflexivity | exact Htask].
  - destruct (no_handler_around_writer three_flagged 8 eq_refl eq_refl ltac:(simpl; lia))
      as [_ Hthrow].
    destruct (Hthrow 1 {| flag := true; writer := fails 11 |}) as (Hinv & Hworld & _ & Htask & _).
    + reflexivity.
    + reflexivity.
    + intros [| i] e Hi Hfl; simpl in Hi.
      * injection Hi as <-. reflexivity.
      * discriminate Hi.
    + reflexivity.
    + split; [rewrite Hinv; reflexivity |]. split; [rewrite Hworld; reflexivity | exact Htask].
Defined.

(** The theorem at two registrations followed by a third: [FlagWriter 1]
    flags the second registration, and the wake-up runs it. *)
Lemma index_stability_witness :
  writers (FlagWriter 1 (run [Register (saves 12)]
                             (run [Register (saves 10); Register (fails 11)]
                                  (JSONWriter_new ([] : list nat))))) !! 1
  = Some {| flag := true; writer := fails 11 |} ∧
  world (invoker_steps 8
           (FlagWriter 1 (run [Register (saves 12)]
                              (run [Register (saves 10); Register (fails 11)]
                                   (JSONWriter_new ([] : list nat))))))
  = [11].
Proof.
  destruct (index_stability [Register (saves 10); Register (fails 11)]
              [Register (saves 12)] ([] : list nat)) as (_ & _ & _ & _ & Hflag).
  - simpl. repeat split; try reflexivity; discriminate.
  - simpl. repeat split; try reflexivity; discriminate.
  - destruct (Hflag 1 (fails 11) eq_refl) as (_ & Hset & _ & Hwake).
    split.
    + rewrite Hset. reflexivity.
    + destruct (Hwake eq_refl) with (n := 8) as [_ Hworld].
      * intros [| [| [| j]]]; reflexivity.
      * simpl. lia.
      * rewrite Hworld. reflexivity.
Defined.

(** The theorem at [one_flagged], a full vector whose entry is pending:
    after one more registration the entry is there, with its writer and its
    flag clear. *)
Lemma move_discards_pending_witness :
  pending one_flagged 0 = true ∧
  writers (snd (RegisterWriter (saves 11) one_flagged)) !! 0
  = Some {| flag := false; writer := saves 10 |}.
Proof.
  split; [reflexivity |].
  destruct (@move_discards_pending (list nat)) as [_ Hrealloc].
  destruct (Hrealloc (saves 11) one_flagged eq_refl) as (_ & Hold & _).
  apply (Hold 0 {| flag := true; writer := saves 10 |}). reflexivity.
Defined.

(** The theorem at a run that leaves the task inside writer 0 with entry 1
    flagged behind the signal: writer 1 runs, after writer 0. *)
Lemma pending_requests_are_served_witness :
  world (invoker_steps 12
           (run [Register (saves 10); Register (saves 11); Flag 0; Invoker; Invoker;
                 Flag 1] (JSONWriter_new ([] : list nat))))
  = [10; 11].
Proof.
  destruct (pending_requests_are_served
              [Register (saves 10); Register (saves 11); Flag 0; Invoker; Invoker; Flag 1]
              ([] : list nat) 1 12) as (_ & Hworld & _).
  - simpl. repeat split; try reflexivity; discriminate.
  - unfold all_return. simpl. repeat constructor.
  - discriminate.
  - discriminate.
  - reflexivity.
  - simpl. lia.
  - rewrite Hworld. reflexivity.
Defined.

End WriterPasses.
